(** * dj-overlay: the dual-deck controller and its audio chain

    A shallow embedding of [src/audio-chain.js] (class [AudioChain]) and
    [src/controller.js] (class [DJController]), followed by the properties
    of the deck / crossfade state machine, the analysis snapshot and the
    render loop.

    Conventions of the embedding.

    - A JavaScript method becomes a computation in the monad [M S], a
      function [S -> S * result A]: the object state is threaded through and
      survives a [throw], exactly as the fields of a JavaScript object keep
      the assignments made before an exception.
    - The collaborators that are not part of the two source files (the Tone
      audio engine, the event bus, the DOM, the song and visual plugins) are
      represented by what the source does to them: every call into them is
      appended to a chronological [trace], oldest first.
    - JavaScript numbers are restricted to the integers together with
      [-Infinity], the only non-finite literal of the source.
    - The methods of [Controller] are written for plug-ins whose calls
      return and whose promises fulfil at once, so that [await] resumes in
      the same turn of the event loop; timers and frame callbacks run only
      between calls, through [advance] and [frame].  The module [Fallible]
      has the methods without that assumption: a call into a plug-in may
      throw or reject, and the stretches of [play] and [startCrossfade]
      that an [await] separates are turns of their own. *)

From Stdlib Require Import ZArith List String Bool Lia DecimalString.
From Stdlib Require Import RelationClasses.
Import ListNotations.

Local Open Scope string_scope.
Local Open Scope list_scope.
Local Open Scope Z_scope.

(** ** JavaScript values *)

Inductive number : Type :=
| Num (z : Z)
| NegInfinity.

Definition number_eqb (a b : number) : bool :=
  match a, b with
  | Num x, Num y => Z.eqb x y
  | NegInfinity, NegInfinity => true
  | _, _ => false
  end.

(** The numbers that [String] prints digit by digit: [-Infinity], and the
    integers that JavaScript represents exactly.  (From 1e21 on it prints
    an exponent instead.) *)
Definition prints_plainly (a : number) : bool :=
  match a with
  | Num z => Z.abs z <=? 9007199254740991
  | NegInfinity => true
  end.

(** [String(a)] for a number that [prints_plainly]. *)
Definition number_to_string (a : number) : string :=
  match a with
  | Num z => NilZero.string_of_int (Z.to_int z)
  | NegInfinity => "-Infinity"
  end.

(** [a > 0] *)
Definition gt0 (a : number) : bool :=
  match a with
  | Num z => 0 <? z
  | NegInfinity => false
  end.

(** [a * 1000] *)
Definition times1000 (a : number) : number :=
  match a with
  | Num z => Num (z * 1000)
  | NegInfinity => NegInfinity
  end.

(** [0 <= a <= 1] *)
Definition in_unit_interval (a : number) : bool :=
  match a with
  | Num z => (0 <=? z) && (z <=? 1)
  | NegInfinity => false
  end.

Inductive Error : Type :=
| TypeError (msg : string)
| RangeError (msg : string)
| PluginError (msg : string).

Inductive result (A : Type) : Type :=
| Ok (a : A)
| Throw (e : Error).

Arguments Ok {A} a.
Arguments Throw {A} e.

(** ** State with exceptions *)

Definition M (S A : Type) : Type := S -> S * result A.

Definition ret {S A} (a : A) : M S A := fun s => (s, Ok a).

Definition throw {S A} (e : Error) : M S A := fun s => (s, Throw e).

Definition bind {S A B} (m : M S A) (k : A -> M S B) : M S B :=
  fun s =>
    match m s with
    | (s', Ok a) => k a s'
    | (s', Throw e) => (s', Throw e)
    end.

(** [try { m } catch (error) { h error }] *)
Definition try_catch {S A} (m : M S A) (h : Error -> M S A) : M S A :=
  fun s =>
    match m s with
    | (s', Ok a) => (s', Ok a)
    | (s', Throw e) => h e s'
    end.

Definition gets {S A} (f : S -> A) : M S A := fun s => (s, Ok (f s)).

Definition modify {S} (f : S -> S) : M S unit := fun s => (f s, Ok tt).

(** Runs a computation on a component [get s] of the state. *)
Definition zoom {S T A} (get : S -> T) (set : T -> S -> S) (m : M T A) : M S A :=
  fun s => let (t', r) := m (get s) in (set t' s, r).

Definition when_ {S} (b : bool) (m : M S unit) : M S unit :=
  if b then m else ret tt.

(** [xs.forEach(f)] *)
Fixpoint forEach {S A} (xs : list A) (f : A -> M S unit) : M S unit :=
  match xs with
  | [] => ret tt
  | x :: rest => bind (f x) (fun _ => forEach rest f)
  end.

Declare Scope js_scope.
Delimit Scope js_scope with js.
Notation "x <- m ;; k" := (bind m (fun x => k))
  (at level 61, m at next level, right associativity) : js_scope.
Notation "m ;; k" := (bind m (fun _ => k))
  (at level 61, right associativity) : js_scope.
Local Open Scope js_scope.

(** A value or exception obtained outside the state. *)
Definition settle {S A} (r : result A) : M S A :=
  match r with
  | Ok a => ret a
  | Throw e => throw e
  end.

Definition exec {S A} (m : M S A) (s : S) : S := fst (m s).
Definition outcome {S A} (m : M S A) (s : S) : result A := snd (m s).

(** ** Decks, songs and the audio engine's nodes *)

Inductive Deck : Type := A | B.

Definition Deck_eqb (x y : Deck) : bool :=
  match x, y with
  | A, A | B, B => true
  | _, _ => false
  end.

Definition Deck_name (d : Deck) : string :=
  match d with A => "A" | B => "B" end.

(** An audio parameter of the engine ([crossfade.fade], [master.volume]):
    [p_value] is the value last assigned by the program ([None] while the
    parameter still has the engine's own default); [p_ramp] is the ramp
    requested by [rampTo (target, seconds)], if one was requested since. *)
Record Param : Type := {
  p_value : option number;
  p_ramp : option (number * number)
}.

Definition Param_assign (v : number) (p : Param) : Param :=
  {| p_value := Some v; p_ramp := None |}.

Definition Param_rampTo (v t : number) (p : Param) : Param :=
  {| p_value := p_value p; p_ramp := Some (v, t) |}.

(** [crossfade.fade] is a parameter of the engine's [normalRange] kind: the
    engine checks every value written to it, at once or as the target of a
    ramp, and throws a [RangeError] for one outside [0, 1]; the parameter
    then keeps the value it had.  (What a refused write does to a ramp that
    is still running is not modelled: no property below depends on it.) *)
Definition out_of_range : Error := RangeError "Value must be within [0, 1]".

Definition normalRange_assign (v : number) (p : Param) : result Param :=
  if in_unit_interval v then Ok (Param_assign v p) else Throw out_of_range.

Definition normalRange_rampTo (v t : number) (p : Param) : result Param :=
  if in_unit_interval v then Ok (Param_rampTo v t p) else Throw out_of_range.

(** The position a parameter holds once any requested ramp has run. *)
Definition Param_position (p : Param) : option number :=
  match p_ramp p with
  | Some (v, _) => Some v
  | None => p_value p
  end.

Inductive Tap : Type := ToMaster | ToAnalyser | ToWaveformAnalyser | ToMeter.

(** [Tone.CrossFade]: the two inputs hold the identities of the song
    outputs connected to them, most recent last. *)
Record CrossFade : Type := {
  fade : Param;
  cf_a : list nat;
  cf_b : list nat;
  cf_out : list Tap;
  cf_disposed : bool
}.

Inductive AnalyserType : Type := fft | waveform.

Record Analyser : Type := {
  an_type : AnalyserType;
  an_size : nat;
  an_disposed : bool
}.

Record Meter : Type := { mt_disposed : bool }.

Record Volume : Type := {
  volume : Param;
  vol_toDestination : bool;
  vol_disposed : bool
}.

(** What the engine's taps read at one instant: the values returned by
    [analyser.getValue()], [waveformAnalyser.getValue()], [meter.getValue()]. *)
Record Engine : Type := {
  fft_value : list number;
  waveform_value : list number;
  meter_value : number
}.

(** The object returned by [getAudioData]. *)
Record AudioData : Type := {
  frequencyData : list number;
  waveformData : list number;
  ad_volume : number
}.

(** [new Float32Array(n)] *)
Definition Float32Array (n : nat) : list number := repeat (Num 0) n.

(** ** [AudioChain] (src/audio-chain.js) *)

Record AudioChain : Type := {
  crossfade : option CrossFade;
  analyser : option Analyser;
  waveformAnalyser : option Analyser;
  meter : option Meter;
  master : option Volume;
  ac_isInitialized : bool
}.

Module Chain.

Definition constructor : AudioChain :=
  {| crossfade := None; analyser := None; waveformAnalyser := None;
     meter := None; master := None; ac_isInitialized := false |}.

Definition Tone_CrossFade : CrossFade :=
  {| fade := {| p_value := None; p_ramp := None |};
     cf_a := []; cf_b := []; cf_out := []; cf_disposed := false |}.

Definition Tone_Analyser (ty : AnalyserType) (size : nat) : Analyser :=
  {| an_type := ty; an_size := size; an_disposed := false |}.

Definition Tone_Volume (db : number) : Volume :=
  {| volume := {| p_value := Some db; p_ramp := None |};
     vol_toDestination := false; vol_disposed := false |}.

Definition cf_connect (t : Tap) (c : CrossFade) : CrossFade :=
  {| fade := fade c; cf_a := cf_a c; cf_b := cf_b c;
     cf_out := cf_out c ++ [t]; cf_disposed := cf_disposed c |}.

Definition cf_with_fade (p : Param) (c : CrossFade) : CrossFade :=
  {| fade := p; cf_a := cf_a c; cf_b := cf_b c;
     cf_out := cf_out c; cf_disposed := cf_disposed c |}.

Definition cf_input (d : Deck) (src : nat) (c : CrossFade) : CrossFade :=
  match d with
  | A => {| fade := fade c; cf_a := cf_a c ++ [src]; cf_b := cf_b c;
            cf_out := cf_out c; cf_disposed := cf_disposed c |}
  | B => {| fade := fade c; cf_a := cf_a c; cf_b := cf_b c ++ [src];
            cf_out := cf_out c; cf_disposed := cf_disposed c |}
  end.

Definition cf_dispose (c : CrossFade) : CrossFade :=
  {| fade := fade c; cf_a := cf_a c; cf_b := cf_b c;
     cf_out := cf_out c; cf_disposed := true |}.

Definition an_dispose (a : Analyser) : Analyser :=
  {| an_type := an_type a; an_size := an_size a; an_disposed := true |}.

Definition vol_dispose (v : Volume) : Volume :=
  {| volume := volume v; vol_toDestination := vol_toDestination v;
     vol_disposed := true |}.

Definition with_crossfade (x : option CrossFade) (c : AudioChain) : AudioChain :=
  {| crossfade := x; analyser := analyser c;
     waveformAnalyser := waveformAnalyser c; meter := meter c;
     master := master c; ac_isInitialized := ac_isInitialized c |}.

Definition with_master (x : option Volume) (c : AudioChain) : AudioChain :=
  {| crossfade := crossfade c; analyser := analyser c;
     waveformAnalyser := waveformAnalyser c; meter := meter c;
     master := x; ac_isInitialized := ac_isInitialized c |}.

(** [async init()]: builds the five nodes, wires the main path and the
    three taps, and only then raises [isInitialized]. *)
Definition init : M AudioChain unit :=
  modify (fun _ =>
    let cf := cf_connect ToMeter
                (cf_connect ToWaveformAnalyser
                   (cf_connect ToAnalyser
                      (cf_connect ToMaster Tone_CrossFade))) in
    let ms := Tone_Volume (Num 0) in
    {| crossfade := Some cf;
       analyser := Some (Tone_Analyser fft 1024);
       waveformAnalyser := Some (Tone_Analyser waveform 1024);
       meter := Some {| mt_disposed := false |};
       master := Some {| volume := volume ms; vol_toDestination := true;
                         vol_disposed := vol_disposed ms |};
       ac_isInitialized := true |}).

Definition null_deref {A} (what : string) : M AudioChain A :=
  throw (TypeError (String.append "Cannot read properties of null: " what)).

(** [getAudioData()]; [e] is what the three taps read at this instant. *)
Definition getAudioData (e : Engine) : M AudioChain AudioData :=
  init_ <- gets ac_isInitialized ;;
  if negb init_ then
    ret {| frequencyData := Float32Array 1024;
           waveformData := Float32Array 1024;
           ad_volume := NegInfinity |}
  else
    an <- gets analyser ;;
    match an with
    | None => null_deref "getValue"
    | Some _ =>
      wf <- gets waveformAnalyser ;;
      match wf with
      | None => null_deref "getValue"
      | Some _ =>
        mt <- gets meter ;;
        match mt with
        | None => null_deref "getValue"
        | Some _ =>
          ret {| frequencyData := fft_value e;
                 waveformData := waveform_value e;
                 ad_volume := meter_value e |}
        end
      end
    end.

(** [connectToDeck(songOutput, deck)] *)
Definition connectToDeck (songOutput : nat) (deck : Deck) : M AudioChain unit :=
  cf <- gets crossfade ;;
  match cf with
  | None => null_deref (match deck with A => "a" | B => "b" end)
  | Some c => modify (with_crossfade (Some (cf_input deck songOutput c)))
  end.

(** [setCrossfade(value, rampTime = 0)] *)
Definition setCrossfade (value : number) (rampTime : number) : M AudioChain unit :=
  cf <- gets crossfade ;;
  match cf with
  | None => null_deref "fade"
  | Some c =>
    if gt0 rampTime then
      p <- settle (normalRange_rampTo value rampTime (fade c)) ;;
      modify (with_crossfade (Some (cf_with_fade p c)))
    else
      p <- settle (normalRange_assign value (fade c)) ;;
      modify (with_crossfade (Some (cf_with_fade p c)))
  end.

(** [setMasterVolume(db)] *)
Definition setMasterVolume (db : number) : M AudioChain unit :=
  ms <- gets master ;;
  match ms with
  | None => null_deref "volume"
  | Some v =>
    modify (with_master
      (Some {| volume := Param_assign db (volume v);
               vol_toDestination := vol_toDestination v;
               vol_disposed := vol_disposed v |}))
  end.

(** [dispose()]: every node that exists is disposed; the fields keep
    their (disposed) nodes and [isInitialized] is lowered. *)
Definition dispose : M AudioChain unit :=
  modify (fun c =>
    {| crossfade := option_map cf_dispose (crossfade c);
       analyser := option_map an_dispose (analyser c);
       waveformAnalyser := option_map an_dispose (waveformAnalyser c);
       meter := option_map (fun _ => {| mt_disposed := true |}) (meter c);
       master := option_map vol_dispose (master c);
       ac_isInitialized := false |}).

(** The crossfade position the chain holds, when it has a crossfade node
    whose [fade] was given a value. *)
Definition position (c : AudioChain) : option number :=
  match crossfade c with
  | Some x => Param_position (fade x)
  | None => None
  end.

End Chain.

(** ** Plugins, the DOM and the host *)

Infix "+++" := String.append (at level 60, right associativity).

Record TransportState : Type := {
  section : string;
  bar : number;
  beat : number;
  bpm : number;
  isPlaying : bool
}.

(** A song object.  [song_id] is its identity; [song_on] and
    [song_getState] say whether the optional members [on] and [getState]
    exist; [song_init] is how the promise of [init()] settles. *)
Record Song : Type := {
  song_id : nat;
  song_name : option string;
  song_on : bool;
  song_getState : bool;
  song_init : option Error
}.

(** The class a song module exports: [sc_new] is the exception its
    constructor throws, if it throws. *)
Record SongClass : Type := {
  sc_new : option Error;
  sc_name : option string;
  sc_on : bool;
  sc_getState : bool;
  sc_init : option Error
}.

(** A module namespace object; [default] is [undefined] when absent. *)
Record SongModule : Type := { sm_default : option SongClass }.

Record Canvas : Type := {
  canvas_id : nat;
  width : number;
  height : number;
  zIndex : number
}.

(** A visual object; [visual_dispose] and [visual_onSectionChange] say
    whether these optional members exist, [visual_init] is the exception
    [init(canvas)] throws, if it throws; [_canvas] and [_layer] are the two
    properties that [loadVisual] adds to the object. *)
Record Visual : Type := {
  visual_id : nat;
  visual_name : option string;
  visual_dispose : bool;
  visual_onSectionChange : bool;
  visual_init : option Error;
  _canvas : option Canvas;
  _layer : option number
}.

Record VisualClass : Type := {
  vc_new : option Error;
  vc_name : option string;
  vc_dispose : bool;
  vc_onSectionChange : bool;
  vc_init : option Error
}.

Record VisualModule : Type := { vm_default : option VisualClass }.

Record Container : Type := {
  clientWidth : number;
  clientHeight : number
}.

(** What the controller finds around it: the module loader and the window. *)
Record Env : Type := {
  import_song : string -> result SongModule;
  import_visual : string -> result VisualModule;
  innerWidth : number;
  innerHeight : number
}.

(** Payloads published on the event bus. *)
Inductive BusEvent : Type :=
| songLoaded (deck : Deck) (song : string)
| sectionChange (deck : Deck) (section : string)
| barTick (deck : Deck) (bar : number)
| visualLoaded (name : string) (layer : number)
| playing (deck : Deck)
| paused (deck : Deck)
| stopped (deck : Deck)
| crossfadeStart (from to : Deck) (duration : number)
| crossfadeComplete (activeDeck : Deck)
| deckSwitch (activeDeck : Deck).

Inductive SongTopic : Type := OnSectionChange | OnBar.

(** Calls that leave the two source files. *)
Inductive Effect : Type :=
| BusEmit (e : BusEvent)
| BusClear
| ToneStart
| SongInit (song : nat)
| SongPlay (song : nat)
| SongPause (song : nat)
| SongStop (song : nat)
| SongDispose (song : nat)
| SongSubscribe (song : nat) (topic : SongTopic)
| VisualInit (visual : nat) (canvas : nat)
| VisualRender (visual : nat) (audioData : AudioData) (songState : TransportState)
| VisualSectionChange (visual : nat) (section : string)
| VisualDispose (visual : nat)
| CanvasAppend (canvas : Canvas)
| CanvasRemove (canvas : nat)
| ConsoleLog (msg : string)
| ConsoleWarn (msg : string)
| ConsoleError (msg : string) (error : Error)
| Uncaught (error : Error).

(** A pending [setTimeout]: the only callback the source ever schedules is
    the crossfade completion, whose closure captures [targetDeck]. *)
Record Timer : Type := {
  due : Z;
  targetDeck : Deck
}.

(** The host: the trace of effects, the clock in milliseconds, the pending
    timers ordered by due time, the animation-frame callback list with the
    counter its handles come from, and the next fresh object identity. *)
Record Host : Type := {
  trace : list Effect;
  now : Z;
  timers : list Timer;
  frameCounter : Z;
  frames : list Z;
  nextObject : nat
}.

(** ** [DJController] (src/controller.js) *)

Record DJController : Type := {
  audioChain : AudioChain;
  deckA : option Song;
  deckB : option Song;
  activeDeck : Deck;
  visuals : list Visual;
  visualContainer : option Container;
  isInitialized : bool;
  animationId : option Z
}.

(** The controller together with the host it runs in. *)
Record Sys : Type := {
  ctl : DJController;
  host : Host
}.

Definition with_audioChain (x : AudioChain) (c : DJController) : DJController :=
  {| audioChain := x; deckA := deckA c; deckB := deckB c;
     activeDeck := activeDeck c; visuals := visuals c;
     visualContainer := visualContainer c; isInitialized := isInitialized c;
     animationId := animationId c |}.

Definition with_deckA (x : option Song) (c : DJController) : DJController :=
  {| audioChain := audioChain c; deckA := x; deckB := deckB c;
     activeDeck := activeDeck c; visuals := visuals c;
     visualContainer := visualContainer c; isInitialized := isInitialized c;
     animationId := animationId c |}.

Definition with_deckB (x : option Song) (c : DJController) : DJController :=
  {| audioChain := audioChain c; deckA := deckA c; deckB := x;
     activeDeck := activeDeck c; visuals := visuals c;
     visualContainer := visualContainer c; isInitialized := isInitialized c;
     animationId := animationId c |}.

Definition with_activeDeck (x : Deck) (c : DJController) : DJController :=
  {| audioChain := audioChain c; deckA := deckA c; deckB := deckB c;
     activeDeck := x; visuals := visuals c;
     visualContainer := visualContainer c; isInitialized := isInitialized c;
     animationId := animationId c |}.

Definition with_visuals (x : list Visual) (c : DJController) : DJController :=
  {| audioChain := audioChain c; deckA := deckA c; deckB := deckB c;
     activeDeck := activeDeck c; visuals := x;
     visualContainer := visualContainer c; isInitialized := isInitialized c;
     animationId := animationId c |}.

Definition with_visualContainer (x : option Container) (c : DJController) : DJController :=
  {| audioChain := audioChain c; deckA := deckA c; deckB := deckB c;
     activeDeck := activeDeck c; visuals := visuals c;
     visualContainer := x; isInitialized := isInitialized c;
     animationId := animationId c |}.

Definition with_isInitialized (x : bool) (c : DJController) : DJController :=
  {| audioChain := audioChain c; deckA := deckA c; deckB := deckB c;
     activeDeck := activeDeck c; visuals := visuals c;
     visualContainer := visualContainer c; isInitialized := x;
     animationId := animationId c |}.

Definition with_animationId (x : option Z) (c : DJController) : DJController :=
  {| audioChain := audioChain c; deckA := deckA c; deckB := deckB c;
     activeDeck := activeDeck c; visuals := visuals c;
     visualContainer := visualContainer c; isInitialized := isInitialized c;
     animationId := x |}.

Definition with_trace (x : list Effect) (h : Host) : Host :=
  {| trace := x; now := now h; timers := timers h;
     frameCounter := frameCounter h; frames := frames h;
     nextObject := nextObject h |}.

Definition with_now (x : Z) (h : Host) : Host :=
  {| trace := trace h; now := x; timers := timers h;
     frameCounter := frameCounter h; frames := frames h;
     nextObject := nextObject h |}.

Definition with_timers (x : list Timer) (h : Host) : Host :=
  {| trace := trace h; now := now h; timers := x;
     frameCounter := frameCounter h; frames := frames h;
     nextObject := nextObject h |}.

Definition with_frames (n : Z) (x : list Z) (h : Host) : Host :=
  {| trace := trace h; now := now h; timers := timers h;
     frameCounter := n; frames := x;
     nextObject := nextObject h |}.

Definition with_nextObject (x : nat) (h : Host) : Host :=
  {| trace := trace h; now := now h; timers := timers h;
     frameCounter := frameCounter h; frames := frames h;
     nextObject := x |}.

Definition on_ctl (f : DJController -> DJController) (s : Sys) : Sys :=
  {| ctl := f (ctl s); host := host s |}.

Definition on_host (f : Host -> Host) (s : Sys) : Sys :=
  {| ctl := ctl s; host := f (host s) |}.

(** [this.f], [this.f = x] and the calls into the host. *)
Definition this {X} (f : DJController -> X) : M Sys X := gets (fun s => f (ctl s)).

Definition assign (f : DJController -> DJController) : M Sys unit := modify (on_ctl f).

Definition effect (e : Effect) : M Sys unit :=
  modify (on_host (fun h => with_trace (trace h ++ [e]) h)).

Definition bus_emit (e : BusEvent) : M Sys unit := effect (BusEmit e).

(** A call on [this.audioChain]. *)
Definition chain {X} (m : M AudioChain X) : M Sys X :=
  zoom (fun s => audioChain (ctl s)) (fun c => on_ctl (with_audioChain c)) m.

(** A fresh object identity, as [new] and [document.createElement] give. *)
Definition fresh : M Sys nat :=
  n <- gets (fun s => nextObject (host s)) ;;
  modify (on_host (with_nextObject (S n))) ;;
  ret n.

Definition lift {X} (r : result X) : M Sys X :=
  match r with
  | Ok x => ret x
  | Throw e => throw e
  end.

(** [x || y] on numbers and on names: [0] and the empty string are falsy. *)
Definition number_or (x y : number) : number :=
  match x with
  | Num 0 => y
  | _ => x
  end.

Definition name_or (x : option string) (y : string) : string :=
  match x with
  | Some EmptyString => y
  | Some n => n
  | None => y
  end.

(** Truthiness of [this.animationId]: [null] and [0] are falsy. *)
Definition truthy (id : option Z) : bool :=
  match id with
  | Some z => negb (z =? 0)
  | None => false
  end.

(** *** Host services *)

(** The delay a timer really gets.  The host keeps it in a signed 32-bit
    field: a delay that does not fit there, like a negative or non-finite
    one, counts as 0, so that a delay above 2147483647 ms (some 24.8 days)
    does not wait at all. *)
Definition delay_ms (d : number) : Z :=
  match d with
  | Num z => if (0 <=? z) && (z <=? 2147483647) then z else 0
  | NegInfinity => 0
  end.

(** Timers stay ordered by due time; equal due times keep creation order. *)
Fixpoint insert_timer (t : Timer) (ts : list Timer) : list Timer :=
  match ts with
  | [] => [t]
  | u :: rest =>
    if due u <=? due t then u :: insert_timer t rest else t :: u :: rest
  end.

(** [setTimeout(() => completion, delay)] with [targetDeck] captured. *)
Definition setTimeout (target : Deck) (delay : number) : M Sys unit :=
  modify (on_host (fun h =>
    with_timers
      (insert_timer {| due := now h + delay_ms delay; targetDeck := target |}
                    (timers h)) h)).

(** [requestAnimationFrame(render)]: handles count up from 1. *)
Definition requestAnimationFrame : M Sys Z :=
  n <- gets (fun s => frameCounter (host s)) ;;
  modify (on_host (fun h => with_frames (n + 1) (frames h ++ [n + 1]) h)) ;;
  ret (n + 1).

Definition cancelAnimationFrame (id : Z) : M Sys unit :=
  modify (on_host (fun h =>
    with_frames (frameCounter h)
                (filter (fun x => negb (x =? id)) (frames h)) h)).

(** [visuals.indexOf(visual)]: objects are compared by identity. *)
Fixpoint indexOf_from (i : Z) (vs : list Visual) (v : Visual) : Z :=
  match vs with
  | [] => -1
  | x :: rest =>
    if Nat.eqb (visual_id x) (visual_id v) then i
    else indexOf_from (i + 1) rest v
  end.

Definition indexOf (vs : list Visual) (v : Visual) : Z := indexOf_from 0 vs v.

(** [visuals.splice(index, 1)] for an index inside the array. *)
Definition splice1 (index : Z) (vs : list Visual) : list Visual :=
  firstn (Z.to_nat index) vs ++ skipn (S (Z.to_nat index)) vs.

Definition opposite (d : Deck) : Deck :=
  match d with A => B | B => A end.

(** [this.activeDeck === 'A' ? this.deckA : this.deckB] for a given deck. *)
Definition deck_slot (d : Deck) (c : DJController) : option Song :=
  match d with A => deckA c | B => deckB c end.

Definition default_songState : TransportState :=
  {| section := "unknown"; bar := Num 0; beat := Num 0; bpm := Num 75;
     isPlaying := false |}.

(** The locals of [startCrossfade] that are live across its [await]. *)
Record FadeLocals : Type := {
  fl_targetDeck : Deck;
  fl_targetValue : number;
  fl_duration : number
}.






Module Controller.

Definition constructor : DJController :=
  {| audioChain := Chain.constructor; deckA := None; deckB := None;
     activeDeck := A; visuals := []; visualContainer := None;
     isInitialized := false; animationId := None |}.

(** [async init(visualContainer)] *)
Definition init (container : Container) : M Sys unit :=
  chain Chain.init ;;
  assign (with_visualContainer (Some container)) ;;
  assign (with_isInitialized true) ;;
  chain (Chain.setCrossfade (Num 0) (Num 0)) ;;
  effect (ConsoleLog "[DJController] Initialized").

(** [new SongClass()] *)
Definition new_Song (cls : option SongClass) : M Sys Song :=
  match cls with
  | None => throw (TypeError "SongClass is not a constructor")
  | Some c =>
    match sc_new c with
    | Some e => throw e
    | None =>
      id <- fresh ;;
      ret {| song_id := id; song_name := sc_name c; song_on := sc_on c;
             song_getState := sc_getState c; song_init := sc_init c |}
    end
  end.

(** [await song.init()] *)
Definition Song_init (song : Song) : M Sys unit :=
  effect (SongInit (song_id song)) ;;
  match song_init song with
  | Some e => throw e
  | None => ret tt
  end.

(** [song.getMasterOutput()]: the output node is named after its song. *)
Definition getMasterOutput (song : Song) : nat := song_id song.

(** [async loadSong(songPath, deck = 'A')].  The [try] block is written
    in two parts: [loadSong_prepare] runs from the dynamic import to the
    disposal of the deck's previous song, [loadSong_install] from the
    assignment of the deck slot to the [return]. *)
Definition loadSong_prepare (env : Env) (songPath : string) (deck : Deck)
  : M Sys Song :=
  SongModule <- lift (import_song env songPath) ;;
  let SongClass := sm_default SongModule in
  song <- new_Song SongClass ;;
  Song_init song ;;
  a <- this deckA ;;
  b <- this deckB ;;
  match deck, a, b with
  | A, Some old, _ => effect (SongDispose (song_id old))
  | B, _, Some old => effect (SongDispose (song_id old))
  | _, _, _ => ret tt
  end ;;
  ret song.

Definition loadSong_install (deck : Deck) (song : Song) : M Sys Song :=
  match deck with
  | A => assign (with_deckA (Some song))
  | B => assign (with_deckB (Some song))
  end ;;
  chain (Chain.connectToDeck (getMasterOutput song) deck) ;;
  when_ (song_on song)
    (effect (SongSubscribe (song_id song) OnSectionChange) ;;
     effect (SongSubscribe (song_id song) OnBar)) ;;
  bus_emit (songLoaded deck (name_or (song_name song) "unknown")) ;;
  effect (ConsoleLog ("[DJController] Song loaded into Deck " +++
                      Deck_name deck)) ;;
  ret song.

Definition loadSong (env : Env) (songPath : string) (deck : Deck) : M Sys Song :=
  effect (ConsoleLog ("[DJController] Loading song into Deck " +++
                      Deck_name deck +++ ": " +++ songPath)) ;;
  try_catch
    (song <- loadSong_prepare env songPath deck ;;
     loadSong_install deck song)
    (fun error =>
       effect (ConsoleError "[DJController] Failed to load song:" error) ;;
       throw error).

(** The two listeners [loadSong] registers on a song. *)
Definition on_sectionChange (deck : Deck) (sec : string) : M Sys unit :=
  bus_emit (sectionChange deck sec) ;;
  vs <- this visuals ;;
  forEach vs (fun v =>
    when_ (visual_onSectionChange v)
          (effect (VisualSectionChange (visual_id v) sec))).

Definition on_bar (deck : Deck) (b : number) : M Sys unit :=
  bus_emit (barTick deck b).

(** [new VisualClass()] *)
Definition new_Visual (cls : option VisualClass) : M Sys Visual :=
  match cls with
  | None => throw (TypeError "VisualClass is not a constructor")
  | Some c =>
    match vc_new c with
    | Some e => throw e
    | None =>
      id <- fresh ;;
      ret {| visual_id := id; visual_name := vc_name c;
             visual_dispose := vc_dispose c;
             visual_onSectionChange := vc_onSectionChange c;
             visual_init := vc_init c;
             _canvas := None; _layer := None |}
    end
  end.

(** [async loadVisual(visualPath, layer = 0)] *)
Definition loadVisual (env : Env) (visualPath : string) (layer : number)
  : M Sys Visual :=
  effect (ConsoleLog ("[DJController] Loading visual: " +++ visualPath)) ;;
  try_catch
    (VisualModule <- lift (import_visual env visualPath) ;;
     let VisualClass := vm_default VisualModule in
     visual <- new_Visual VisualClass ;;
     cid <- fresh ;;
     container <- this visualContainer ;;
     match container with
     | None => throw (TypeError "Cannot read properties of null: clientWidth")
     | Some box =>
       let canvas :=
         {| canvas_id := cid;
            width := number_or (clientWidth box) (innerWidth env);
            height := number_or (clientHeight box) (innerHeight env);
            zIndex := layer |} in
       effect (CanvasAppend canvas) ;;
       effect (VisualInit (visual_id visual) cid) ;;
       match visual_init visual with
       | Some e => throw e
       | None =>
         let visual :=
           {| visual_id := visual_id visual;
              visual_name := visual_name visual;
              visual_dispose := visual_dispose visual;
              visual_onSectionChange := visual_onSectionChange visual;
              visual_init := visual_init visual;
              _canvas := Some canvas; _layer := Some layer |} in
         vs <- this visuals ;;
         assign (with_visuals (vs ++ [visual])) ;;
         bus_emit (visualLoaded (name_or (visual_name visual) "unknown") layer) ;;
         effect (ConsoleLog ("[DJController] Visual loaded at layer " +++
                             number_to_string layer)) ;;
         ret visual
       end
     end)
    (fun error =>
       effect (ConsoleError "[DJController] Failed to load visual:" error) ;;
       throw error).

(** [removeVisual(visual)] *)
Definition removeVisual (visual : Visual) : M Sys unit :=
  vs <- this visuals ;;
  let index := indexOf vs visual in
  if -1 <? index then
    assign (with_visuals (splice1 index vs)) ;;
    match _canvas visual with
    | Some c => effect (CanvasRemove (canvas_id c))
    | None => ret tt
    end ;;
    when_ (visual_dispose visual) (effect (VisualDispose (visual_id visual)))
  else ret tt.

(** The closure [render] of [startRenderLoop]: one tick of the loop.
    [e] is what the analysis taps read at this tick and [tr] what each
    song's [getState()] returns. *)
Definition render (e : Engine) (tr : nat -> TransportState) : M Sys unit :=
  audioData <- chain (Chain.getAudioData e) ;;
  active <- this activeDeck ;;
  activeSong <- this (deck_slot active) ;;
  let songState :=
    match activeSong with
    | Some song =>
      if song_getState song then tr (song_id song) else default_songState
    | None => default_songState
    end in
  vs <- this visuals ;;
  forEach vs (fun visual =>
    effect (VisualRender (visual_id visual) audioData songState)) ;;
  id <- requestAnimationFrame ;;
  assign (with_animationId (Some id)).

(** [startRenderLoop()] *)
Definition startRenderLoop (e : Engine) (tr : nat -> TransportState)
  : M Sys unit :=
  id <- this animationId ;;
  if truthy id then ret tt else render e tr.

(** [stopRenderLoop()] *)
Definition stopRenderLoop : M Sys unit :=
  id <- this animationId ;;
  match id with
  | Some h =>
    if truthy id then
      cancelAnimationFrame h ;;
      assign (with_animationId None)
    else ret tt
  | None => ret tt
  end.

(** [async play()] *)
Definition play (e : Engine) (tr : nat -> TransportState) : M Sys unit :=
  effect ToneStart ;;
  active <- this activeDeck ;;
  activeSong <- this (deck_slot active) ;;
  match activeSong with
  | Some song => effect (SongPlay (song_id song))
  | None => ret tt
  end ;;
  startRenderLoop e tr ;;
  active <- this activeDeck ;;
  bus_emit (playing active).

(** [pause()] *)
Definition pause : M Sys unit :=
  active <- this activeDeck ;;
  activeSong <- this (deck_slot active) ;;
  match activeSong with
  | Some song => effect (SongPause (song_id song))
  | None => ret tt
  end ;;
  bus_emit (paused active).

(** [stop()] *)
Definition stop : M Sys unit :=
  active <- this activeDeck ;;
  activeSong <- this (deck_slot active) ;;
  match activeSong with
  | Some song => effect (SongStop (song_id song))
  | None => ret tt
  end ;;
  stopRenderLoop ;;
  bus_emit (stopped active).

(** The arrow function [startCrossfade] hands to [setTimeout]: it reads
    [this.activeDeck] when it runs, and writes the [targetDeck] that was
    captured when it was created. *)
Definition completion (targetDeck : Deck) : M Sys unit :=
  active <- this activeDeck ;;
  oldSong <- this (deck_slot active) ;;
  match oldSong with
  | Some song => effect (SongStop (song_id song))
  | None => ret tt
  end ;;
  assign (with_activeDeck targetDeck) ;;
  bus_emit (crossfadeComplete targetDeck).

(** [async startCrossfade(duration = 4)], up to its [await]: the result
    is [None] when the method returned early. *)
Definition startCrossfade_begin (duration : number) : M Sys (option FadeLocals) :=
  active <- this activeDeck ;;
  let targetDeck := match active with A => B | B => A end in
  let targetValue := match active with A => Num 1 | B => Num 0 end in
  inactiveSong <- this (match active with A => deckB | B => deckA end) ;;
  match inactiveSong with
  | None =>
    effect (ConsoleWarn "[DJController] No song loaded in target deck") ;;
    ret None
  | Some song =>
    active <- this activeDeck ;;
    bus_emit (crossfadeStart active targetDeck duration) ;;
    effect (SongPlay (song_id song)) ;;
    ret (Some {| fl_targetDeck := targetDeck; fl_targetValue := targetValue;
                 fl_duration := duration |})
  end.

(** ... and from the [await] on. *)
Definition startCrossfade_resume (k : FadeLocals) : M Sys unit :=
  chain (Chain.setCrossfade (fl_targetValue k) (fl_duration k)) ;;
  setTimeout (fl_targetDeck k) (times1000 (fl_duration k)).

Definition startCrossfade (duration : number) : M Sys unit :=
  k <- startCrossfade_begin duration ;;
  match k with
  | None => ret tt
  | Some locals => startCrossfade_resume locals
  end.

(** [switchDeck()] *)
Definition switchDeck : M Sys unit :=
  active <- this activeDeck ;;
  let targetValue := match active with A => Num 1 | B => Num 0 end in
  chain (Chain.setCrossfade targetValue (Num 0)) ;;
  active <- this activeDeck ;;
  assign (with_activeDeck (match active with A => B | B => A end)) ;;
  active <- this activeDeck ;;
  bus_emit (deckSwitch active).

(** [dispose()] *)
Definition dispose : M Sys unit :=
  stopRenderLoop ;;
  vs <- this visuals ;;
  forEach vs (fun v =>
    match _canvas v with
    | Some c => effect (CanvasRemove (canvas_id c))
    | None => ret tt
    end ;;
    when_ (visual_dispose v) (effect (VisualDispose (visual_id v)))) ;;
  assign (with_visuals []) ;;
  a <- this deckA ;;
  match a with
  | Some song => effect (SongDispose (song_id song))
  | None => ret tt
  end ;;
  b <- this deckB ;;
  match b with
  | Some song => effect (SongDispose (song_id song))
  | None => ret tt
  end ;;
  chain Chain.dispose ;;
  effect BusClear.







End Controller.

(** ** The event loop *)

(** The clock reaches [t]: every timer due by then runs, in order, at its
    due time. *)
Definition advance (t : Z) : M Sys unit :=
  ts <- gets (fun s => timers (host s)) ;;
  let (ready, later) := partition (fun x => due x <=? t) ts in
  modify (on_host (with_timers later)) ;;
  forEach ready (fun x =>
    modify (on_host (fun h => with_now (Z.max (now h) (due x)) h)) ;;
    Controller.completion (targetDeck x)) ;;
  modify (on_host (fun h => with_now (Z.max (now h) t) h)).

(** An animation frame: the callbacks requested so far run once each; a
    callback that throws is reported and does not stop the others. *)
Definition frame (e : Engine) (tr : nat -> TransportState) : M Sys unit :=
  pending <- gets (fun s => frames (host s)) ;;
  modify (on_host (fun h => with_frames (frameCounter h) [] h)) ;;
  forEach pending (fun _ =>
    try_catch (Controller.render e tr) (fun err => effect (Uncaught err))).

(** A page that has just constructed its controller. *)
Definition boot : Sys :=
  {| ctl := Controller.constructor;
     host := {| trace := []; now := 0; timers := []; frameCounter := 0;
                frames := []; nextObject := 0 |} |}.

(** What can happen to the system, one event-loop turn at a time. *)
Inductive Op : Type :=
| Init (container : Container)
| LoadSong (songPath : string) (deck : Deck)
| LoadVisual (visualPath : string) (layer : number)
| RemoveVisual (visual : Visual)
| Play (e : Engine) (tr : nat -> TransportState)
| Pause
| Stop
| StartCrossfade (duration : number)
| SwitchDeck
| StartRenderLoop (e : Engine) (tr : nat -> TransportState)
| StopRenderLoop
| Dispose
| SongSectionChange (deck : Deck) (sec : string)
| SongBar (deck : Deck) (b : number)
| Advance (t : Z)
| Frame (e : Engine) (tr : nat -> TransportState).

Definition step (env : Env) (o : Op) (s : Sys) : Sys :=
  match o with
  | Init c => exec (Controller.init c) s
  | LoadSong p d => exec (Controller.loadSong env p d) s
  | LoadVisual p l => exec (Controller.loadVisual env p l) s
  | RemoveVisual v => exec (Controller.removeVisual v) s
  | Play e tr => exec (Controller.play e tr) s
  | Pause => exec Controller.pause s
  | Stop => exec Controller.stop s
  | StartCrossfade d => exec (Controller.startCrossfade d) s
  | SwitchDeck => exec Controller.switchDeck s
  | StartRenderLoop e tr => exec (Controller.startRenderLoop e tr) s
  | StopRenderLoop => exec Controller.stopRenderLoop s
  | Dispose => exec Controller.dispose s
  | SongSectionChange d x => exec (Controller.on_sectionChange d x) s
  | SongBar d b => exec (Controller.on_bar d b) s
  | Advance t => exec (advance t) s
  | Frame e tr => exec (frame e tr) s
  end.

Definition run (env : Env) (ops : list Op) (s : Sys) : Sys :=
  fold_left (fun acc o => step env o acc) ops s.

(** ** Calls that fail and awaits that take time *)

(** The methods of [Controller] are written for plug-ins whose calls return
    and whose promises fulfil at once.  This section has the same methods
    without that assumption.  A table [p] says how each call into the
    engine's start-up, a song or a visual ends during one turn of the event
    loop: [None] when the call returns (for a promise: fulfils), [Some e]
    when it throws (rejects with) [e]. *)
Definition Plugins : Type := Effect -> option Error.

(** Every call returns. *)
Definition quiet : Plugins := fun _ => None.

(** A call into a plug-in: it is made, and ends as [p] says. *)
Definition call (p : Plugins) (e : Effect) : M Sys unit :=
  effect e ;;
  match p e with
  | Some err => throw err
  | None => ret tt
  end.

Module Fallible.

(** The closure [render] of [startRenderLoop]. *)
Definition render (p : Plugins) (e : Engine) (tr : nat -> TransportState)
  : M Sys unit :=
  audioData <- chain (Chain.getAudioData e) ;;
  active <- this activeDeck ;;
  activeSong <- this (deck_slot active) ;;
  let songState :=
    match activeSong with
    | Some song =>
      if song_getState song then tr (song_id song) else default_songState
    | None => default_songState
    end in
  vs <- this visuals ;;
  forEach vs (fun visual =>
    call p (VisualRender (visual_id visual) audioData songState)) ;;
  id <- requestAnimationFrame ;;
  assign (with_animationId (Some id)).

(** [startRenderLoop()] *)
Definition startRenderLoop (p : Plugins) (e : Engine)
  (tr : nat -> TransportState) : M Sys unit :=
  id <- this animationId ;;
  if truthy id then ret tt else render p e tr.

(** [async play()], in the three stretches its two [await]s cut it into:
    up to [await Tone.start()], from there to [await activeSong.play()],
    and the rest. *)
Definition play_engine (p : Plugins) : M Sys unit := call p ToneStart.

Definition play_song (p : Plugins) : M Sys unit :=
  active <- this activeDeck ;;
  activeSong <- this (deck_slot active) ;;
  match activeSong with
  | Some song => call p (SongPlay (song_id song))
  | None => ret tt
  end.

Definition play_loop (p : Plugins) (e : Engine) (tr : nat -> TransportState)
  : M Sys unit :=
  startRenderLoop p e tr ;;
  active <- this activeDeck ;;
  bus_emit (playing active).

(** ... and [play()] when nothing else runs between the stretches. *)
Definition play (p : Plugins) (e : Engine) (tr : nat -> TransportState)
  : M Sys unit :=
  play_engine p ;;
  play_song p ;;
  play_loop p e tr.

(** [pause()] *)
Definition pause (p : Plugins) : M Sys unit :=
  active <- this activeDeck ;;
  activeSong <- this (deck_slot active) ;;
  match activeSong with
  | Some song => call p (SongPause (song_id song))
  | None => ret tt
  end ;;
  bus_emit (paused active).

(** [stop()] *)
Definition stop (p : Plugins) : M Sys unit :=
  active <- this activeDeck ;;
  activeSong <- this (deck_slot active) ;;
  match activeSong with
  | Some song => call p (SongStop (song_id song))
  | None => ret tt
  end ;;
  Controller.stopRenderLoop ;;
  bus_emit (stopped active).

(** The arrow function [startCrossfade] hands to [setTimeout]. *)
Definition completion (p : Plugins) (targetDeck : Deck) : M Sys unit :=
  active <- this activeDeck ;;
  oldSong <- this (deck_slot active) ;;
  match oldSong with
  | Some song => call p (SongStop (song_id song))
  | None => ret tt
  end ;;
  assign (with_activeDeck targetDeck) ;;
  bus_emit (crossfadeComplete targetDeck).

(** [async startCrossfade(duration = 4)] up to its [await]; what follows
    the [await] is [Controller.startCrossfade_resume]. *)
Definition startCrossfade_begin (p : Plugins) (duration : number)
  : M Sys (option FadeLocals) :=
  active <- this activeDeck ;;
  let targetDeck := match active with A => B | B => A end in
  let targetValue := match active with A => Num 1 | B => Num 0 end in
  inactiveSong <- this (match active with A => deckB | B => deckA end) ;;
  match inactiveSong with
  | None =>
    effect (ConsoleWarn "[DJController] No song loaded in target deck") ;;
    ret None
  | Some song =>
    active <- this activeDeck ;;
    bus_emit (crossfadeStart active targetDeck duration) ;;
    call p (SongPlay (song_id song)) ;;
    ret (Some {| fl_targetDeck := targetDeck; fl_targetValue := targetValue;
                 fl_duration := duration |})
  end.

(** ... and [startCrossfade] when the promise settles at once. *)
Definition startCrossfade (p : Plugins) (duration : number) : M Sys unit :=
  k <- startCrossfade_begin p duration ;;
  match k with
  | None => ret tt
  | Some locals => Controller.startCrossfade_resume locals
  end.

(** [async loadSong(songPath, deck = 'A')] *)
Definition loadSong_prepare (p : Plugins) (env : Env) (songPath : string)
  (deck : Deck) : M Sys Song :=
  SongModule <- lift (import_song env songPath) ;;
  let SongClass := sm_default SongModule in
  song <- Controller.new_Song SongClass ;;
  Controller.Song_init song ;;
  a <- this deckA ;;
  b <- this deckB ;;
  match deck, a, b with
  | A, Some old, _ => call p (SongDispose (song_id old))
  | B, _, Some old => call p (SongDispose (song_id old))
  | _, _, _ => ret tt
  end ;;
  ret song.

Definition loadSong_install (p : Plugins) (deck : Deck) (song : Song)
  : M Sys Song :=
  match deck with
  | A => assign (with_deckA (Some song))
  | B => assign (with_deckB (Some song))
  end ;;
  chain (Chain.connectToDeck (Controller.getMasterOutput song) deck) ;;
  when_ (song_on song)
    (call p (SongSubscribe (song_id song) OnSectionChange) ;;
     call p (SongSubscribe (song_id song) OnBar)) ;;
  bus_emit (songLoaded deck (name_or (song_name song) "unknown")) ;;
  effect (ConsoleLog ("[DJController] Song loaded into Deck " +++
                      Deck_name deck)) ;;
  ret song.

Definition loadSong (p : Plugins) (env : Env) (songPath : string)
  (deck : Deck) : M Sys Song :=
  effect (ConsoleLog ("[DJController] Loading song into Deck " +++
                      Deck_name deck +++ ": " +++ songPath)) ;;
  try_catch
    (song <- loadSong_prepare p env songPath deck ;;
     loadSong_install p deck song)
    (fun error =>
       effect (ConsoleError "[DJController] Failed to load song:" error) ;;
       throw error).

(** The [sectionChange] listener [loadSong] registers on a song. *)
Definition on_sectionChange (p : Plugins) (deck : Deck) (sec : string)
  : M Sys unit :=
  bus_emit (sectionChange deck sec) ;;
  vs <- this visuals ;;
  forEach vs (fun v =>
    when_ (visual_onSectionChange v)
          (call p (VisualSectionChange (visual_id v) sec))).

(** [removeVisual(visual)] *)
Definition removeVisual (p : Plugins) (visual : Visual) : M Sys unit :=
  vs <- this visuals ;;
  let index := indexOf vs visual in
  if -1 <? index then
    assign (with_visuals (splice1 index vs)) ;;
    match _canvas visual with
    | Some c => effect (CanvasRemove (canvas_id c))
    | None => ret tt
    end ;;
    when_ (visual_dispose visual) (call p (VisualDispose (visual_id visual)))
  else ret tt.

(** [dispose()] *)
Definition dispose (p : Plugins) : M Sys unit :=
  Controller.stopRenderLoop ;;
  vs <- this visuals ;;
  forEach vs (fun v =>
    match _canvas v with
    | Some c => effect (CanvasRemove (canvas_id c))
    | None => ret tt
    end ;;
    when_ (visual_dispose v) (call p (VisualDispose (visual_id v)))) ;;
  assign (with_visuals []) ;;
  a <- this deckA ;;
  match a with
  | Some song => call p (SongDispose (song_id song))
  | None => ret tt
  end ;;
  b <- this deckB ;;
  match b with
  | Some song => call p (SongDispose (song_id song))
  | None => ret tt
  end ;;
  chain Chain.dispose ;;
  effect BusClear.

(** The clock reaches [t]: every timer due by then runs, in order, at its
    due time; a completion that throws is reported and does not stop the
    others. *)
Definition advance (p : Plugins) (t : Z) : M Sys unit :=
  ts <- gets (fun s => timers (host s)) ;;
  let (ready, later) := partition (fun x => due x <=? t) ts in
  modify (on_host (with_timers later)) ;;
  forEach ready (fun x =>
    modify (on_host (fun h => with_now (Z.max (now h) (due x)) h)) ;;
    try_catch (completion p (targetDeck x))
              (fun err => effect (Uncaught err))) ;;
  modify (on_host (fun h => with_now (Z.max (now h) t) h)).

(** An animation frame. *)
Definition frame (p : Plugins) (e : Engine) (tr : nat -> TransportState)
  : M Sys unit :=
  pending <- gets (fun s => frames (host s)) ;;
  modify (on_host (fun h => with_frames (frameCounter h) [] h)) ;;
  forEach pending (fun _ =>
    try_catch (render p e tr) (fun err => effect (Uncaught err))).

(** One operation run from its call to its end with nothing in between. *)
Definition step (env : Env) (p : Plugins) (o : Op) (s : Sys) : Sys :=
  match o with
  | Init c => exec (Controller.init c) s
  | LoadSong path d => exec (loadSong p env path d) s
  | LoadVisual path l => exec (Controller.loadVisual env path l) s
  | RemoveVisual v => exec (removeVisual p v) s
  | Play e tr => exec (play p e tr) s
  | Pause => exec (pause p) s
  | Stop => exec (stop p) s
  | StartCrossfade d => exec (startCrossfade p d) s
  | SwitchDeck => exec Controller.switchDeck s
  | StartRenderLoop e tr => exec (startRenderLoop p e tr) s
  | StopRenderLoop => exec Controller.stopRenderLoop s
  | Dispose => exec (dispose p) s
  | SongSectionChange d x => exec (on_sectionChange p d x) s
  | SongBar d b => exec (Controller.on_bar d b) s
  | Advance t => exec (advance p t) s
  | Frame e tr => exec (frame p e tr) s
  end.

(** What runs in one turn of the event loop: a whole operation, or one of
    the stretches of [play] and [startCrossfade], which other turns may
    separate. *)
Inductive Turn : Type :=
| Whole (o : Op)
| PlayEngine
| PlaySong
| PlayLoop (e : Engine) (tr : nat -> TransportState)
| CrossfadeBegin (duration : number)
| CrossfadeResume (locals : FadeLocals).

Definition turn (env : Env) (pt : Plugins * Turn) (s : Sys) : Sys :=
  let (p, t) := pt in
  match t with
  | Whole o => step env p o s
  | PlayEngine => exec (play_engine p) s
  | PlaySong => exec (play_song p) s
  | PlayLoop e tr => exec (play_loop p e tr) s
  | CrossfadeBegin d => exec (startCrossfade_begin p d) s
  | CrossfadeResume k => exec (Controller.startCrossfade_resume k) s
  end.

Definition run (env : Env) (turns : list (Plugins * Turn)) (s : Sys) : Sys :=
  fold_left (fun acc pt => turn env pt acc) turns s.

End Fallible.

(** ** Vocabulary of the properties *)

(** The calls on an [AudioChain], for sequences of them. *)
Inductive ChainOp : Type :=
| CInit
| CGetAudioData (e : Engine)
| CConnectToDeck (songOutput : nat) (deck : Deck)
| CSetCrossfade (value rampTime : number)
| CSetMasterVolume (db : number)
| CDispose.

Definition is_CInit (o : ChainOp) : bool :=
  match o with CInit => true | _ => false end.

Definition is_CDispose (o : ChainOp) : bool :=
  match o with CDispose => true | _ => false end.

Definition chain_step (o : ChainOp) (c : AudioChain) : AudioChain :=
  match o with
  | CInit => exec Chain.init c
  | CGetAudioData e => exec (Chain.getAudioData e) c
  | CConnectToDeck src d => exec (Chain.connectToDeck src d) c
  | CSetCrossfade v t => exec (Chain.setCrossfade v t) c
  | CSetMasterVolume db => exec (Chain.setMasterVolume db) c
  | CDispose => exec Chain.dispose c
  end.

Definition chain_run (ops : list ChainOp) (c : AudioChain) : AudioChain :=
  fold_left (fun acc o => chain_step o acc) ops c.

(** Whether the graph is up after a sequence of calls that started with
    the graph up ([b = true]) or down: [init] brings it up, [dispose] takes
    it down, nothing else matters. *)
Definition graph_up (b : bool) (ops : list ChainOp) : bool :=
  fold_left (fun up o => if is_CInit o then true
                         else if is_CDispose o then false else up) ops b.

(** The state [init] establishes: the flag is up and the three taps exist. *)
Definition chain_ready (c : AudioChain) : Prop :=
  ac_isInitialized c = true /\ analyser c <> None /\
  waveformAnalyser c <> None /\ meter c <> None.

(** The flag is only ever up over a graph that exists. *)
Definition chain_sound (c : AudioChain) : Prop :=
  ac_isInitialized c = true -> chain_ready c.

(** The snapshot [getAudioData] builds when [isInitialized] is false ... *)
Definition silence : AudioData :=
  {| frequencyData := Float32Array 1024;
     waveformData := Float32Array 1024;
     ad_volume := NegInfinity |}.

(** ... and the one it reads from the taps otherwise. *)
Definition live (e : Engine) : AudioData :=
  {| frequencyData := fft_value e;
     waveformData := waveform_value e;
     ad_volume := meter_value e |}.

(** The chain's crossfade position, if it has one, is inside [0, 1]. *)
Definition position_in_range (c : AudioChain) : Prop :=
  match Chain.position c with
  | Some p => in_unit_interval p = true
  | None => True
  end.

(** Both ends of the crossfade parameter, the value last assigned and the
    target of the ramp last requested, are inside [0, 1] where they exist;
    the parameter moves between the two while the ramp runs. *)
Definition number_in_range (v : option number) : Prop :=
  match v with
  | Some p => in_unit_interval p = true
  | None => True
  end.

Definition fade_in_range (c : AudioChain) : Prop :=
  match crossfade c with
  | Some x =>
    number_in_range (p_value (fade x)) /\
    number_in_range (option_map fst (p_ramp (fade x)))
  | None => True
  end.

(** The ways in which resolving a song can fail before the deck is touched:
    the import rejects, the module has no constructor to offer, the
    constructor throws, or [init()] rejects. *)
Inductive load_fails (env : Env) (songPath : string) : Error -> Prop :=
| resolution_fails e :
    import_song env songPath = Throw e ->
    load_fails env songPath e
| not_a_constructor m :
    import_song env songPath = Ok m ->
    sm_default m = None ->
    load_fails env songPath (TypeError "SongClass is not a constructor")
| instantiation_fails m c e :
    import_song env songPath = Ok m ->
    sm_default m = Some c ->
    sc_new c = Some e ->
    load_fails env songPath e
| init_fails m c e :
    import_song env songPath = Ok m ->
    sm_default m = Some c ->
    sc_new c = None ->
    sc_init c = Some e ->
    load_fails env songPath e.

Definition is_songLoaded (e : Effect) : bool :=
  match e with
  | BusEmit (songLoaded _ _) => true
  | _ => false
  end.

Definition is_SongDispose (e : Effect) : bool :=
  match e with
  | SongDispose _ => true
  | _ => false
  end.

Definition disposes (song : nat) (e : Effect) : bool :=
  match e with
  | SongDispose id => Nat.eqb id song
  | _ => false
  end.

(** How many times [dispose()] was called on a song in a stretch of trace. *)
Definition dispose_calls (song : nat) (tr : list Effect) : nat :=
  List.length (filter (disposes song) tr).

Definition removes_canvas (canvas : nat) (e : Effect) : bool :=
  match e with
  | CanvasRemove c => Nat.eqb c canvas
  | _ => false
  end.


Definition visual_ids (s : Sys) : list nat := map visual_id (visuals (ctl s)).

(** The identity of the song a deck holds. *)
Definition deck_song (d : Deck) (s : Sys) : option nat :=
  option_map song_id (deck_slot d (ctl s)).

(** What holds of every state the controller can reach. *)
Record Inv (s : Sys) : Prop := {
  inv_position :
    Chain.position (audioChain (ctl s)) = None \/
    Chain.position (audioChain (ctl s)) = Some (Num 0) \/
    Chain.position (audioChain (ctl s)) = Some (Num 1);
  inv_counter : 0 <= frameCounter (host s);
  inv_handle :
    forall h, animationId (ctl s) = Some h -> 0 < h <= frameCounter (host s);
  inv_frames :
    frames (host s) = [] \/
    exists h, frames (host s) = [h] /\ animationId (ctl s) = Some h;
  inv_visuals : NoDup (visual_ids s);
  inv_fresh :
    forall id, In id (visual_ids s) -> (id < nextObject (host s))%nat;
  inv_songs :
    forall d id, deck_song d s = Some id -> (id < nextObject (host s))%nat
}.

(** The state after appending effects to the trace. *)
Definition log (es : list Effect) (s : Sys) : Sys :=
  on_host (fun h => with_trace (trace h ++ es) h) s.

(** The part of the state [Inv] speaks about. *)
Definition view (s : Sys) :
  option number * Z * option Z * list Z * list nat * nat *
  option nat * option nat :=
  (Chain.position (audioChain (ctl s)), frameCounter (host s),
   animationId (ctl s), frames (host s), visual_ids s, nextObject (host s),
   deck_song A s, deck_song B s).

(** A computation that maintains [Inv], however it ends. *)
Definition keeps {X} (m : M Sys X) : Prop :=
  forall s, Inv s -> Inv (fst (m s)).

(** ** Sample inputs *)

Definition demo_song : SongClass :=
  {| sc_new := None; sc_name := Some "demo"; sc_on := true;
     sc_getState := true; sc_init := None |}.

Definition night_song : SongClass :=
  {| sc_new := None; sc_name := Some "night"; sc_on := false;
     sc_getState := false; sc_init := None |}.

Definition broken_song : SongClass :=
  {| sc_new := None; sc_name := Some "broken"; sc_on := false;
     sc_getState := false; sc_init := Some (PluginError "init failed") |}.

Definition bars_visual : VisualClass :=
  {| vc_new := None; vc_name := Some "bars"; vc_dispose := true;
     vc_onSectionChange := true; vc_init := None |}.

Definition sample_env : Env :=
  {| import_song := fun path =>
       if String.eqb path "songs/demo.js" then
         Ok {| sm_default := Some demo_song |}
       else if String.eqb path "songs/night.js" then
         Ok {| sm_default := Some night_song |}
       else if String.eqb path "songs/broken.js" then
         Ok {| sm_default := Some broken_song |}
       else Throw (PluginError "Cannot find module");
     import_visual := fun path =>
       if String.eqb path "visuals/bars.js" then
         Ok {| vm_default := Some bars_visual |}
       else Throw (PluginError "Cannot find module");
     innerWidth := Num 1280;
     innerHeight := Num 720 |}.

Definition sample_box : Container :=
  {| clientWidth := Num 800; clientHeight := Num 0 |}.

Definition sample_transport (song : nat) : TransportState :=
  {| section := "verse"; bar := Num 3; beat := Num 1; bpm := Num 75;
     isPlaying := true |}.

(** An initialised controller with a song in each deck, deck A active. *)
Definition both_loaded_ops : list Op :=
  [Init sample_box; LoadSong "songs/demo.js" A; LoadSong "songs/night.js" B].

Definition both_loaded : Sys := run sample_env both_loaded_ops boot.

Definition sample_engine : Engine :=
  {| fft_value := [Num (-60); Num (-42)];
     waveform_value := [Num 0; Num 1];
     meter_value := Num (-12) |}.

(** The songs [both_loaded] holds in decks A and B. *)
Definition demo : Song :=
  {| song_id := 0; song_name := Some "demo"; song_on := true;
     song_getState := true; song_init := None |}.

Definition night : Song :=
  {| song_id := 1; song_name := Some "night"; song_on := false;
     song_getState := false; song_init := None |}.

(** The visual that [loadVisual "visuals/bars.js" 0] creates first on an
    initialised controller, and the state it is loaded in. *)
Definition bars : Visual :=
  {| visual_id := 0; visual_name := Some "bars"; visual_dispose := true;
     visual_onSectionChange := true; visual_init := None;
     _canvas := Some {| canvas_id := 1; width := Num 800; height := Num 720;
                        zIndex := Num 0 |};
     _layer := Some (Num 0) |}.

Definition bars_loaded : list Op :=
  [Init sample_box; LoadVisual "visuals/bars.js" (Num 0)].

(** A controller that was initialised and nothing else. *)
Definition initialised : Sys := run sample_env [Init sample_box] boot.



(** The song a third [loadSong] creates on [both_loaded]. *)
Definition night_again : Song :=
  {| song_id := 2; song_name := Some "night"; song_on := false;
     song_getState := false; song_init := None |}.


(** Turns in which every call returns. *)
Definition quietly (ops : list Op) : list (Plugins * Fallible.Turn) :=
  map (fun o => (quiet, Fallible.Whole o)) ops.



Definition stop_throws : Plugins :=
  fun e =>
    match e with
    | SongStop _ => Some (PluginError "stop failed")
    | _ => None
    end.

Definition hook_throws : Plugins :=
  fun e =>
    match e with
    | VisualDispose _ => Some (PluginError "dispose failed")
    | _ => None
    end.


(** ** Vocabulary of the further properties *)

(** A computation that takes every state to one related to it by [R],
    however it ends. *)
Definition moves (R : Sys -> Sys -> Prop) {X} (m : M Sys X) : Prop :=
  forall s, R s (fst (m s)).

(** The states agree on [f]. *)
Definition same {T} (f : Sys -> T) : Sys -> Sys -> Prop :=
  fun s s' => f s' = f s.

(** The audio chain of the second state is that of the first after some of
    the chain's own methods were called on it. *)
Definition via_chain_methods : Sys -> Sys -> Prop :=
  fun s s' =>
    exists cops, audioChain (ctl s') = chain_run cops (audioChain (ctl s)).

(** Every timer pending in the first state is still pending in the second. *)
Definition timers_kept : Sys -> Sys -> Prop :=
  fun s s' => incl (timers (host s)) (timers (host s')).

(** What [removeVisual] and [dispose] do to release one visual. *)
Definition teardown (v : Visual) : list Effect :=
  (match _canvas v with
   | Some c => [CanvasRemove (canvas_id c)]
   | None => []
   end) ++
  (if visual_dispose v then [VisualDispose (visual_id v)] else []).

(** The call [mk] made on the song of a deck slot, if the slot holds one. *)
Definition song_call (mk : nat -> Effect) (slot : option Song) : list Effect :=
  match slot with
  | Some song => [mk (song_id song)]
  | None => []
  end.

Definition is_visualLoaded (e : Effect) : bool :=
  match e with
  | BusEmit (visualLoaded _ _) => true
  | _ => false
  end.

(** The song state [render] hands to the visuals. *)
Definition songState_of (tr : nat -> TransportState) (c : DJController)
  : TransportState :=
  match deck_slot (activeDeck c) c with
  | Some song =>
    if song_getState song then tr (song_id song) else default_songState
  | None => default_songState
  end.

(** The snapshot [getAudioData] answers with on a chain whose flag is only
    up over existing nodes. *)
Definition audioData_of (e : Engine) (c : AudioChain) : AudioData :=
  if ac_isInitialized c then live e else silence.

(** The state after [stopRenderLoop]. *)
Definition halted (s : Sys) : Sys :=
  match animationId (ctl s) with
  | Some h =>
    if truthy (Some h) then
      on_ctl (with_animationId None)
        (on_host (fun host =>
           with_frames (frameCounter host)
                       (filter (fun x => negb (x =? h)) (frames host)) host) s)
    else s
  | None => s
  end.

(** [animationId] never names a callback that is not pending. *)
Definition loop_consistent (s : Sys) : Prop :=
  forall h, animationId (ctl s) = Some h -> frames (host s) = [h].

(** The second state has the property if the first has it. *)
Definition under (P : Sys -> Prop) : Sys -> Sys -> Prop :=
  fun s s' => P s -> P s'.

(** The crossfade node and the master volume node exist. *)
Definition nodes_exist (c : AudioChain) : Prop :=
  crossfade c <> None /\ master c <> None.

(** The [render] calls of one tick: every visual, in list order. *)
Definition renders (e : Engine) (tr : nat -> TransportState) (s : Sys)
  : list Effect :=
  map (fun v => VisualRender (visual_id v)
                  (audioData_of e (audioChain (ctl s)))
                  (songState_of tr (ctl s)))
      (visuals (ctl s)).

Definition is_SwitchDeck (o : Op) : bool :=
  match o with SwitchDeck => true | _ => false end.

Definition is_Advance (o : Op) : bool :=
  match o with Advance _ => true | _ => false end.

Definition is_LoadSong (o : Op) : bool :=
  match o with LoadSong _ _ => true | _ => false end.

(** Sequences without the operations that may change [activeDeck], the
    deck slots, or fire timers. *)
Definition no_switch_or_timer (ops : list Op) : bool :=
  forallb (fun o => negb (is_SwitchDeck o || is_Advance o)) ops.

Definition no_LoadSong (ops : list Op) : bool :=
  forallb (fun o => negb (is_LoadSong o)) ops.

Definition no_Advance (ops : list Op) : bool :=
  forallb (fun o => negb (is_Advance o)) ops.

Definition no_CInit (ops : list ChainOp) : bool :=
  forallb (fun o => negb (is_CInit o)) ops.

(** The crossfade position that goes with a deck being active. *)
Definition extreme (d : Deck) : number :=
  match d with A => Num 0 | B => Num 1 end.

(** The calls of [es] that are made when they are made in order and the
    first one to fail ends the sequence, and the error of that one. *)
Fixpoint attempt (p : Plugins) (es : list Effect) : list Effect * option Error :=
  match es with
  | [] => ([], None)
  | e :: rest =>
    match p e with
    | Some err => ([e], Some err)
    | None => let (made, r) := attempt p rest in (e :: made, r)
    end
  end.

(** How a sequence of calls ends. *)
Definition ended (r : option Error) : result unit :=
  match r with
  | Some err => Throw err
  | None => Ok tt
  end.

(** How the call [mk] on the song of a deck slot ends; nothing is called,
    and nothing fails, on an empty slot. *)
Definition song_ends (p : Plugins) (mk : nat -> Effect) (slot : option Song)
  : option Error :=
  match slot with
  | Some song => p (mk (song_id song))
  | None => None
  end.

(** In this turn every visual's [render] returns. *)
Definition renders_return (p : Plugins) : Prop :=
  forall v a st, p (VisualRender v a st) = None.

(** What holds of the render loop in every state, also after calls that
    failed: handles are positive and were given out, and a pending callback
    is the only one and the one [animationId] names. *)
Record Loop (s : Sys) : Prop := {
  loop_counter : 0 <= frameCounter (host s);
  loop_handle :
    forall h, animationId (ctl s) = Some h -> 0 < h <= frameCounter (host s);
  loop_frames :
    frames (host s) = [] \/
    exists h, frames (host s) = [h] /\ animationId (ctl s) = Some h
}.

Definition loop_view (s : Sys) : Z * option Z * list Z :=
  (frameCounter (host s), animationId (ctl s), frames (host s)).

(** The invariant of the states reached through turns whose calls may fail;
    with [steady] it includes that [animationId] names no callback that has
    run already. *)
Definition Sound (steady : bool) (s : Sys) : Prop :=
  chain_sound (audioChain (ctl s)) /\ Loop s /\
  (steady = true -> loop_consistent s).

(** Every node the chain holds is disposed of. *)
Definition nodes_disposed (c : AudioChain) : Prop :=
  option_map cf_disposed (crossfade c) <> Some false /\
  option_map an_disposed (analyser c) <> Some false /\
  option_map an_disposed (waveformAnalyser c) <> Some false /\
  option_map mt_disposed (meter c) <> Some false /\
  option_map vol_disposed (master c) <> Some false.

(** * Properties *)

(** ** The audio chain *)

Section AudioChainFacts.

Variable e : Engine.

Lemma getAudioData_uninitialized (c : AudioChain) :
  ac_isInitialized c = false ->
  Chain.getAudioData e c = (c, Ok silence).
Proof.
  intros Hoff. unfold Chain.getAudioData, bind, gets.
  rewrite Hoff. reflexivity.
Qed.

Lemma getAudioData_ready (c : AudioChain) :
  chain_ready c ->
  Chain.getAudioData e c = (c, Ok (live e)).
Proof.
  intros (Hon & Han & Hwf & Hmt).
  unfold Chain.getAudioData, bind, gets. rewrite Hon. cbn.
  destruct (analyser c); [|congruence].
  destruct (waveformAnalyser c); [|congruence].
  destruct (meter c); [|congruence].
  reflexivity.
Qed.

Lemma init_ready (c : AudioChain) : chain_ready (exec Chain.init c).
Proof. repeat split; cbn; congruence. Qed.

End AudioChainFacts.

Lemma setCrossfade_state (v t : number) (c : AudioChain) :
  exec (Chain.setCrossfade v t) c =
  match crossfade c with
  | None => c
  | Some x =>
    if in_unit_interval v then
      Chain.with_crossfade
        (Some (Chain.cf_with_fade
                 (if gt0 t then Param_rampTo v t (fade x)
                  else Param_assign v (fade x)) x)) c
    else c
  end.
Proof.
  unfold exec, Chain.setCrossfade, normalRange_rampTo, normalRange_assign,
    settle, bind, gets. cbn.
  destruct (crossfade c); [|reflexivity].
  destruct (gt0 t), (in_unit_interval v); reflexivity.
Qed.

Lemma connectToDeck_state (src : nat) (d : Deck) (c : AudioChain) :
  exec (Chain.connectToDeck src d) c =
  match crossfade c with
  | None => c
  | Some x => Chain.with_crossfade (Some (Chain.cf_input d src x)) c
  end.
Proof.
  unfold exec, Chain.connectToDeck, bind, gets. cbn.
  destruct (crossfade c); reflexivity.
Qed.

Lemma setMasterVolume_taps (db : number) (c : AudioChain) :
  let c' := exec (Chain.setMasterVolume db) c in
  ac_isInitialized c' = ac_isInitialized c /\ analyser c' = analyser c /\
  waveformAnalyser c' = waveformAnalyser c /\ meter c' = meter c /\
  crossfade c' = crossfade c.
Proof.
  unfold exec, Chain.setMasterVolume, bind, gets. cbn.
  destruct (master c); cbn; auto.
Qed.

Lemma chain_step_sound (o : ChainOp) (c : AudioChain) :
  chain_sound c ->
  chain_sound (chain_step o c) /\
  ac_isInitialized (chain_step o c) =
    (if is_CInit o then true
     else if is_CDispose o then false else ac_isInitialized c).
Proof.
  intros Hc. destruct o; cbn [chain_step is_CInit is_CDispose].
  - split; [intros _; apply init_ready | reflexivity].
  - unfold exec. destruct (ac_isInitialized c) eqn:Hflag.
    + rewrite (getAudioData_ready e c (Hc Hflag)). cbn. auto.
    + rewrite (getAudioData_uninitialized e c Hflag). cbn. auto.
  - rewrite connectToDeck_state. destruct (crossfade c); auto.
  - rewrite setCrossfade_state.
    destruct (crossfade c); [destruct (in_unit_interval value)|]; auto.
  - destruct (setMasterVolume_taps db c) as (H1 & H2 & H3 & H4 & _).
    split; [|exact H1].
    intros Hup. rewrite H1 in Hup. destruct (Hc Hup) as (K1 & K2 & K3 & K4).
    repeat split; congruence.
  - split; [|reflexivity]. intros Hup. discriminate Hup.
Qed.

Lemma chain_run_sound (ops : list ChainOp) :
  forall c, chain_sound c ->
    chain_sound (chain_run ops c) /\
    ac_isInitialized (chain_run ops c) = graph_up (ac_isInitialized c) ops.
Proof.
  induction ops as [|o ops IH]; intros c Hc; [split; [exact Hc | reflexivity]|].
  destruct (chain_step_sound o c Hc) as [Hs Hflag].
  destruct (IH _ Hs) as [Hs' Hflag'].
  unfold chain_run in *. cbn [fold_left]. split; [exact Hs'|].
  rewrite Hflag'. unfold graph_up. cbn [fold_left]. rewrite Hflag.
  reflexivity.
Qed.

Lemma constructor_sound : chain_sound Chain.constructor.
Proof. intros Hup. discriminate Hup. Qed.

(** What [getAudioData] answers after any sequence of calls on a new chain. *)
Lemma getAudioData_after (e : Engine) (ops : list ChainOp) :
  Chain.getAudioData e (chain_run ops Chain.constructor) =
  (chain_run ops Chain.constructor,
   Ok (if graph_up false ops then live e else silence)).
Proof.
  destruct (chain_run_sound ops _ constructor_sound) as [Hs Hflag].
  cbn [ac_isInitialized Chain.constructor] in Hflag.
  destruct (graph_up false ops).
  - apply getAudioData_ready, Hs, Hflag.
  - apply getAudioData_uninitialized, Hflag.
Qed.

Lemma graph_up_app (b : bool) (xs ys : list ChainOp) :
  graph_up b (xs ++ ys) = graph_up (graph_up b xs) ys.
Proof. apply fold_left_app. Qed.

Lemma Float32Array_zero (n : nat) :
  List.length (Float32Array n) = n /\
  Forall (fun x => x = Num 0) (Float32Array n).
Proof.
  unfold Float32Array. split; [apply repeat_length|].
  apply Forall_forall. intros x Hx. now apply repeat_spec in Hx.
Qed.

(** C5: a chain that was never initialised, or was disposed of since it was
    last initialised, answers [getAudioData] with the silent default
    snapshot; a chain that was initialised and not disposed of since answers
    with what its three taps read.  In both cases the call returns normally
    and leaves the chain as it was. *)
Theorem getAudioData_silence_or_live (e : Engine) (ops : list ChainOp) :
  Chain.getAudioData e (chain_run ops Chain.constructor) =
    (chain_run ops Chain.constructor,
     Ok (if graph_up false ops then live e else silence))
  /\ graph_up false [] = false
  /\ graph_up false (ops ++ [CDispose]) = false
  /\ graph_up false (ops ++ [CInit]) = true
  /\ (forall more, forallb (fun o => negb (is_CInit o)) more = true ->
        graph_up false (ops ++ CDispose :: more) = false)
  /\ (forall more, forallb (fun o => negb (is_CDispose o)) more = true ->
        graph_up false (ops ++ CInit :: more) = true).
Proof.
  split; [apply getAudioData_after|].
  split; [reflexivity|].
  split; [rewrite graph_up_app; reflexivity|].
  split; [rewrite graph_up_app; reflexivity|].
  split; intros more Hmore; rewrite graph_up_app; cbn;
    generalize dependent more.
  - induction more as [|o more IH]; intros Hmore; [reflexivity|].
    cbn in Hmore. apply andb_true_iff in Hmore as [Ho Hmore].
    cbn. destruct o; try discriminate; auto.
  - induction more as [|o more IH]; intros Hmore; [reflexivity|].
    cbn in Hmore. apply andb_true_iff in Hmore as [Ho Hmore].
    cbn. destruct o; try discriminate; auto.
Qed.

(** C10: the default snapshot has a frequency buffer of 1024 zeros, a
    waveform buffer of 1024 zeros, and the volume [-Infinity], which is not
    the number 0. *)
Theorem default_snapshot_shape (e : Engine) (ops : list ChainOp) :
  graph_up false ops = false ->
  exists d,
    outcome (Chain.getAudioData e) (chain_run ops Chain.constructor) = Ok d /\
    List.length (frequencyData d) = 1024%nat /\
    Forall (fun x => x = Num 0) (frequencyData d) /\
    List.length (waveformData d) = 1024%nat /\
    Forall (fun x => x = Num 0) (waveformData d) /\
    ad_volume d = NegInfinity /\
    ad_volume d <> Num 0.
Proof.
  intros Hdown. exists silence.
  unfold outcome. rewrite getAudioData_after, Hdown.
  destruct (Float32Array_zero 1024) as [Hlen Hall].
  cbn [snd silence frequencyData waveformData ad_volume].
  repeat split; try assumption. discriminate.
Qed.

(** The default snapshot on a chain that was initialised and then disposed of. *)
Lemma default_snapshot_shape_witness :
  exists d,
    outcome (Chain.getAudioData sample_engine)
            (chain_run [CInit; CDispose] Chain.constructor) = Ok d /\
    List.length (frequencyData d) = 1024%nat /\
    Forall (fun x => x = Num 0) (frequencyData d) /\
    List.length (waveformData d) = 1024%nat /\
    Forall (fun x => x = Num 0) (waveformData d) /\
    ad_volume d = NegInfinity /\
    ad_volume d <> Num 0.
Proof.
  apply (default_snapshot_shape sample_engine [CInit; CDispose]).
  reflexivity.
Defined.

(** ** Running the controller *)

(** Unfolds the monad and the accessors so that a method applied to a state
    given by its fields computes. *)
Ltac unfold_js :=
  unfold bus_emit, this, assign, effect, chain, zoom, fresh, lift, when_,
    Chain.null_deref, normalRange_rampTo, normalRange_assign, settle,
    bind, gets, modify, ret, throw, try_catch, exec,
    outcome, log, on_ctl, on_host in *.

#[local] Arguments String.append : simpl never.
#[local] Arguments delay_ms : simpl never.

Lemma delay_ms_bounds (d : Z) :
  0 <= d -> 0 <= delay_ms (Num (d * 1000)) <= d * 1000.
Proof.
  intros Hd. unfold delay_ms.
  destruct (Z.leb_spec 0 (d * 1000)), (Z.leb_spec (d * 1000) 2147483647);
    cbn; lia.
Qed.



Ltac open_state s :=
  let c := fresh "c" in
  let h := fresh "h" in
  let a := fresh "a" in
  destruct s as [c h]; destruct c as [a ? ? ? ? ? ? ?], h; destruct a;
  cbn in *.

Lemma log_nil (s : Sys) : log [] s = s.
Proof. open_state s. unfold log, on_host, with_trace. cbn. now rewrite app_nil_r. Qed.

Lemma log_log (xs ys : list Effect) (s : Sys) :
  log ys (log xs s) = log (xs ++ ys) s.
Proof. unfold log, on_host, with_trace. cbn. now rewrite app_assoc. Qed.

Lemma switchDeck_run (s : Sys) (x : CrossFade) :
  crossfade (audioChain (ctl s)) = Some x ->
  let target := match activeDeck (ctl s) with A => Num 1 | B => Num 0 end in
  let s' := exec Controller.switchDeck s in
  outcome Controller.switchDeck s = Ok tt /\
  activeDeck (ctl s') = opposite (activeDeck (ctl s)) /\
  Chain.position (audioChain (ctl s')) = Some target /\
  trace (host s') =
    trace (host s) ++ [BusEmit (deckSwitch (opposite (activeDeck (ctl s))))] /\
  deckA (ctl s') = deckA (ctl s) /\ deckB (ctl s') = deckB (ctl s) /\
  timers (host s') = timers (host s).
Proof.
  intros Hcf. open_state s. subst.
  unfold Controller.switchDeck, Chain.setCrossfade. unfold_js. cbn.
  destruct activeDeck0; cbn; repeat split.
Qed.

Lemma switchDeck_uninitialised (s : Sys) :
  crossfade (audioChain (ctl s)) = None ->
  Controller.switchDeck s =
    (s, Throw (TypeError "Cannot read properties of null: fade")).
Proof.
  intros Hcf. open_state s. subst.
  unfold Controller.switchDeck, Chain.setCrossfade. unfold_js. cbn.
  destruct activeDeck0; reflexivity.
Qed.

Lemma startCrossfade_empty_target (d : number) (s : Sys) :
  deck_slot (opposite (activeDeck (ctl s))) (ctl s) = None ->
  Controller.startCrossfade d s =
    (log [ConsoleWarn "[DJController] No song loaded in target deck"] s, Ok tt).
Proof.
  intros Hslot. open_state s.
  unfold Controller.startCrossfade, Controller.startCrossfade_begin.
  unfold_js. cbn.
  destruct activeDeck0; cbn in Hslot; subst; reflexivity.
Qed.

(** C9, as stated, fails on a controller whose [init] has not run: the
    audio chain has no crossfade node yet, [switchDeck] throws on it, and
    neither the flip nor the event happens. *)
Lemma switchDeck_throws_before_init :
  Controller.switchDeck boot =
    (boot, Throw (TypeError "Cannot read properties of null: fade")) /\
  ~ (forall s : Sys,
       activeDeck (ctl (exec Controller.switchDeck s)) =
       opposite (activeDeck (ctl s))).
Proof.
  split; [reflexivity|].
  intros Hall. specialize (Hall boot). discriminate Hall.
Qed.

(** C9 (amended): once the audio chain has its crossfade node, [switchDeck]
    has no guard at all.  Whatever the decks hold, and in particular when
    the destination deck is empty, it returns normally, moves the crossfade
    position to the opposite extreme, flips [activeDeck], publishes
    [deckSwitch] with the new active deck and so never leaves the state as
    it was; [startCrossfade] from the same state with an empty destination
    only logs a warning.  On a chain without crossfade node [switchDeck]
    throws and changes nothing. *)
Theorem switchDeck_has_no_deck_guard (s : Sys) (x : CrossFade) (d : number) :
  crossfade (audioChain (ctl s)) = Some x ->
  let s' := exec Controller.switchDeck s in
  outcome Controller.switchDeck s = Ok tt /\
  activeDeck (ctl s') = opposite (activeDeck (ctl s)) /\
  Chain.position (audioChain (ctl s')) =
    Some (match activeDeck (ctl s) with A => Num 1 | B => Num 0 end) /\
  trace (host s') =
    trace (host s) ++ [BusEmit (deckSwitch (opposite (activeDeck (ctl s))))] /\
  deckA (ctl s') = deckA (ctl s) /\ deckB (ctl s') = deckB (ctl s) /\
  timers (host s') = timers (host s) /\
  s' <> s /\
  (deck_slot (opposite (activeDeck (ctl s))) (ctl s) = None ->
   ctl (exec (Controller.startCrossfade d) s) = ctl s /\
   trace (host (exec (Controller.startCrossfade d) s)) =
     trace (host s) ++
     [ConsoleWarn "[DJController] No song loaded in target deck"]) /\
  (forall s0, crossfade (audioChain (ctl s0)) = None ->
     Controller.switchDeck s0 =
       (s0, Throw (TypeError "Cannot read properties of null: fade"))).
Proof.
  intros Hcf s'.
  destruct (switchDeck_run s x Hcf) as (H1 & H2 & H3 & H4 & H5 & H6 & H7).
  repeat (split; [assumption|]).
  split; [|split].
  - intros Hsame. fold s' in H2. rewrite Hsame in H2.
    destruct (activeDeck (ctl s)); discriminate H2.
  - intros Hslot. unfold exec.
    rewrite (startCrossfade_empty_target d s Hslot). split; reflexivity.
  - exact switchDeck_uninitialised.
Qed.

(** ** Loading songs *)

Ltac unfold_loadSong :=
  unfold Controller.loadSong, Controller.loadSong_prepare,
    Controller.loadSong_install, Controller.new_Song, Controller.Song_init,
    Controller.getMasterOutput, Chain.connectToDeck.

(** C2: when the import rejects, the module offers no constructor, the
    constructor throws or [init()] rejects, [loadSong] rethrows that very
    error to its caller after logging it, and the controller is exactly as
    it was: both deck slots keep their occupants, no [songLoaded] event is
    published and no song has [dispose()] called. *)
Theorem loadSong_failure_keeps_deck
  (env : Env) (songPath : string) (deck : Deck) (s : Sys) (e : Error) :
  load_fails env songPath e ->
  let s' := exec (Controller.loadSong env songPath deck) s in
  outcome (Controller.loadSong env songPath deck) s = Throw e /\
  ctl s' = ctl s /\
  deck_slot deck (ctl s') = deck_slot deck (ctl s) /\
  timers (host s') = timers (host s) /\
  exists added,
    trace (host s') = trace (host s) ++ added /\
    filter is_songLoaded added = [] /\
    filter is_SongDispose added = [] /\
    In (ConsoleError "[DJController] Failed to load song:" e) added.
Proof.
  intros Hfail s'. subst s'.
  destruct Hfail as [e Him | m Him Hdef | m c e Him Hdef Hnew
                    | m c e Him Hdef Hnew Hinit];
    open_state s; unfold_loadSong; unfold_js; cbn; rewrite Him; cbn;
    try rewrite Hdef; cbn; try rewrite Hnew; cbn; try rewrite Hinit; cbn;
    (repeat (split; [reflexivity|]));
    eexists; (split; [rewrite <- !app_assoc; reflexivity|]);
    cbn; auto 6.
Qed.

(** A successful [loadSong] into an occupied deck, stretch by stretch. *)
Lemma loadSong_success_run
  (env : Env) (songPath : string) (deck : Deck) (s s' : Sys) (old new : Song) :
  deck_slot deck (ctl s) = Some old ->
  (song_id old < nextObject (host s))%nat ->
  Controller.loadSong env songPath deck s = (s', Ok new) ->
  exists s0 s1,
    s0 = log [ConsoleLog ("[DJController] Loading song into Deck " +++
                          Deck_name deck +++ ": " +++ songPath)] s /\
    Controller.loadSong_prepare env songPath deck s0 = (s1, Ok new) /\
    Controller.loadSong_install deck new s1 = (s', Ok new) /\
    ctl s1 = ctl s /\
    deck_slot deck (ctl s1) = Some old /\
    trace (host s1) =
      trace (host s0) ++ [SongInit (song_id new); SongDispose (song_id old)] /\
    deck_slot deck (ctl s') = Some new /\
    deck_slot (opposite deck) (ctl s') = deck_slot (opposite deck) (ctl s) /\
    song_id new <> song_id old /\
    exists added,
      trace (host s') = trace (host s) ++ added /\
      dispose_calls (song_id old) added = 1%nat /\
      dispose_calls (song_id new) added = 0%nat.
Proof.
  intros Hold Hfresh Hrun.
  open_state s.
  revert Hrun. unfold_loadSong. unfold_js. cbn.
  destruct (import_song env songPath) as [m|]; cbn; [|discriminate].
  destruct (sm_default m) as [c|]; cbn; [|discriminate].
  destruct (sc_new c); cbn; [discriminate|].
  destruct (sc_init c); cbn; [discriminate|].
  destruct crossfade0 as [x|].
  2:{ destruct deck; cbn in Hold; subst; cbn; discriminate. }
  destruct deck; cbn in Hold; subst; cbn;
    destruct (sc_on c); cbn; intros Hrun; inversion Hrun; subst; clear Hrun;
    cbn; do 2 eexists; (split; [reflexivity|]); cbn;
    repeat (split; [first [reflexivity | rewrite <- !app_assoc; reflexivity]|]);
    (split; [lia|]);
    eexists; (split; [rewrite <- !app_assoc; reflexivity|]);
    unfold dispose_calls; cbn; rewrite Nat.eqb_refl;
    (replace (Nat.eqb (song_id old) nextObject0) with false
       by (symmetry; apply Nat.eqb_neq; lia));
    split; reflexivity.
Qed.

(** ** Crossfades *)

Ltac unfold_crossfade :=
  unfold Controller.startCrossfade, Controller.startCrossfade_begin,
    Controller.startCrossfade_resume, Controller.completion, advance,
    setTimeout, Chain.setCrossfade.

(** The two songs of [both_loaded]. *)
Lemma both_loaded_decks :
  option_map song_id (deckA (ctl both_loaded)) = Some 0%nat /\
  option_map song_id (deckB (ctl both_loaded)) = Some 1%nat /\
  activeDeck (ctl both_loaded) = A /\
  Chain.position (audioChain (ctl both_loaded)) = Some (Num 0) /\
  timers (host both_loaded) = [].
Proof. repeat split. Qed.

(** C1: the source has neither remedy.  A [startCrossfade] issued while a
    fade is in flight is accepted and schedules a second completion; the
    completion is not idempotent; and it writes the deck captured when it
    was scheduled.  With a 10 s fade started at 0 s and 1 s fades started at
    1 s and 3 s, the last completion to run is the first one scheduled: the
    controller ends with [activeDeck] B while the crossfade sits at 0, on
    deck A, and both songs stopped.  The same end state is reached with two
    fades only, when [switchDeck] runs between them. *)
Theorem overlapping_crossfades_end_on_wrong_deck :
  let in_flight :=
    run sample_env [StartCrossfade (Num 10); Advance 1000] both_loaded in
  let second := step sample_env (StartCrossfade (Num 1)) in_flight in
  let final :=
    run sample_env [Advance 3000; StartCrossfade (Num 1); Advance 10000] second in
  let switched :=
    run sample_env
        [StartCrossfade (Num 10); Advance 2000; SwitchDeck;
         StartCrossfade (Num 4); Advance 10000] both_loaded in
  timers (host in_flight) = [{| due := 10000; targetDeck := B |}] /\
  timers (host second) =
    [{| due := 2000; targetDeck := B |}; {| due := 10000; targetDeck := B |}] /\
  skipn (List.length (trace (host in_flight))) (trace (host second)) =
    [BusEmit (crossfadeStart A B (Num 1)); SongPlay 1] /\
  skipn (List.length (trace (host second))) (trace (host final)) =
    [SongStop 0; BusEmit (crossfadeComplete B);
     BusEmit (crossfadeStart B A (Num 1)); SongPlay 0;
     SongStop 1; BusEmit (crossfadeComplete A);
     SongStop 0; BusEmit (crossfadeComplete B)] /\
  timers (host final) = [] /\
  Chain.position (audioChain (ctl final)) = Some (Num 0) /\
  activeDeck (ctl final) = B /\
  trace (host (exec (Controller.completion B)
                    (exec (Controller.completion B) both_loaded))) <>
  trace (host (exec (Controller.completion B) both_loaded)) /\
  skipn (List.length (trace (host both_loaded))) (trace (host switched)) =
    [BusEmit (crossfadeStart A B (Num 10)); SongPlay 1;
     BusEmit (deckSwitch B);
     BusEmit (crossfadeStart B A (Num 4)); SongPlay 0;
     SongStop 1; BusEmit (crossfadeComplete A);
     SongStop 0; BusEmit (crossfadeComplete B)] /\
  timers (host switched) = [] /\
  Chain.position (audioChain (ctl switched)) = Some (Num 0) /\
  activeDeck (ctl switched) = B.
Proof.
  cbv zeta. repeat split; try (vm_compute; reflexivity).
  vm_compute. discriminate.
Qed.

(** ** The invariant of reachable states *)

Lemma Inv_view (s s' : Sys) : view s' = view s -> Inv s -> Inv s'.
Proof.
  unfold view. intros Hv [H1 H2 H3 H4 H5 H6 H7].
  injection Hv as E1 E2 E3 E4 E5 E6 E7 E8.
  constructor; rewrite ?E1, ?E2, ?E3, ?E4, ?E5, ?E6; try assumption.
  intros [] id; rewrite ?E7, ?E8; apply H7.
Qed.

Lemma boot_Inv : Inv boot.
Proof.
  constructor; cbn; auto using NoDup_nil; try lia; try discriminate;
    try (intros ? []; fail); try (intros [] id; discriminate).
Qed.

Section Keeps.

Context {X Y : Type}.

Lemma keeps_ret (x : X) : keeps (ret x).
Proof. intros s Hs. exact Hs. Qed.

Lemma keeps_throw (e : Error) : keeps (@throw Sys X e).
Proof. intros s Hs. exact Hs. Qed.

Lemma keeps_gets (f : Sys -> X) : keeps (gets f).
Proof. intros s Hs. exact Hs. Qed.

Lemma keeps_this (f : DJController -> X) : keeps (this f).
Proof. intros s Hs. exact Hs. Qed.

Lemma keeps_lift (r : result X) : keeps (lift r).
Proof. intros s Hs. destruct r; exact Hs. Qed.

Lemma keeps_bind (m : M Sys X) (k : X -> M Sys Y) :
  keeps m -> (forall x, keeps (k x)) -> keeps (bind m k).
Proof.
  intros Hm Hk s Hs. unfold bind. specialize (Hm s Hs).
  destruct (m s) as [s1 [x|e]]; cbn in *; [exact (Hk x s1 Hm) | exact Hm].
Qed.

Lemma keeps_try_catch (m : M Sys X) (h : Error -> M Sys X) :
  keeps m -> (forall e, keeps (h e)) -> keeps (try_catch m h).
Proof.
  intros Hm Hh s Hs. unfold try_catch. specialize (Hm s Hs).
  destruct (m s) as [s1 [x|e]]; cbn in *; [exact Hm | exact (Hh e s1 Hm)].
Qed.

Lemma keeps_forEach (xs : list X) (f : X -> M Sys unit) :
  (forall x, keeps (f x)) -> keeps (forEach xs f).
Proof.
  intros Hf. induction xs as [|x xs IH]; cbn.
  - intros s Hs. exact Hs.
  - intros s Hs. unfold bind. specialize (Hf x s Hs).
    destruct (f x s) as [s1 [[]|e]]; cbn in *; [exact (IH s1 Hf) | exact Hf].
Qed.

Lemma keeps_view (m : M Sys X) :
  (forall s, view (fst (m s)) = view s) -> keeps m.
Proof. intros Hm s Hs. exact (Inv_view s _ (Hm s) Hs). Qed.

End Keeps.

Lemma keeps_when (b : bool) (m : M Sys unit) : keeps m -> keeps (when_ b m).
Proof. intros Hm. destruct b; [exact Hm | apply keeps_ret]. Qed.

Lemma keeps_effect (e : Effect) : keeps (effect e).
Proof. apply keeps_view. reflexivity. Qed.

Lemma keeps_bus_emit (e : BusEvent) : keeps (bus_emit e).
Proof. apply keeps_effect. Qed.

Lemma keeps_with_activeDeck (x : Deck) : keeps (assign (with_activeDeck x)).
Proof. apply keeps_view. reflexivity. Qed.

Lemma keeps_with_visualContainer (x : option Container) :
  keeps (assign (with_visualContainer x)).
Proof. apply keeps_view. reflexivity. Qed.

Lemma keeps_with_isInitialized (x : bool) : keeps (assign (with_isInitialized x)).
Proof. apply keeps_view. reflexivity. Qed.

Lemma keeps_with_timers (f : Host -> list Timer) :
  keeps (modify (on_host (fun h => with_timers (f h) h))).
Proof. apply keeps_view. reflexivity. Qed.

Lemma keeps_with_now (f : Host -> Z) :
  keeps (modify (on_host (fun h => with_now (f h) h))).
Proof. apply keeps_view. reflexivity. Qed.

Lemma keeps_no_visuals : keeps (assign (with_visuals [])).
Proof.
  intros s [H1 H2 H3 H4 H5 H6 H7].
  constructor; cbn; auto using NoDup_nil; try (intros ? []).
Qed.

Lemma keeps_fresh : keeps fresh.
Proof.
  intros s [H1 H2 H3 H4 H5 H6 H7]. constructor; cbn; auto.
  - intros id Hid. specialize (H6 id Hid). lia.
  - intros d id Hid. specialize (H7 d id Hid). lia.
Qed.

Lemma keeps_chain_init : keeps (chain Chain.init).
Proof.
  intros s [H1 H2 H3 H4 H5 H6 H7]. constructor; cbn; auto.
Qed.

Lemma keeps_chain_dispose : keeps (chain Chain.dispose).
Proof.
  intros s [H1 H2 H3 H4 H5 H6 H7]. constructor; auto.
  cbn. unfold Chain.position in *. cbn.
  destruct (crossfade (audioChain (ctl s))); cbn; auto.
Qed.

Lemma getAudioData_pure (e : Engine) (c : AudioChain) :
  fst (Chain.getAudioData e c) = c.
Proof.
  unfold Chain.getAudioData, bind, gets, ret, Chain.null_deref, throw. cbn.
  destruct (ac_isInitialized c); cbn; [|reflexivity].
  destruct (analyser c); [|reflexivity].
  destruct (waveformAnalyser c); [|reflexivity].
  destruct (meter c); reflexivity.
Qed.

Lemma keeps_chain_getAudioData (e : Engine) : keeps (chain (Chain.getAudioData e)).
Proof.
  apply keeps_view. intros s. unfold chain, zoom.
  pose proof (getAudioData_pure e (audioChain (ctl s))) as Hsame.
  destruct (Chain.getAudioData e (audioChain (ctl s))) as [c r].
  cbn in Hsame. subst c. reflexivity.
Qed.

Lemma keeps_chain_connectToDeck (src : nat) (d : Deck) :
  keeps (chain (Chain.connectToDeck src d)).
Proof.
  apply keeps_view. intros s. open_state s.
  unfold Chain.connectToDeck. unfold_js. cbn.
  destruct crossfade0; [|reflexivity].
  destruct d; reflexivity.
Qed.

Lemma keeps_chain_setCrossfade (v t : number) :
  v = Num 0 \/ v = Num 1 -> keeps (chain (Chain.setCrossfade v t)).
Proof.
  intros Hv s [H1 H2 H3 H4 H5 H6 H7]. open_state s.
  unfold Chain.setCrossfade. unfold_js. cbn.
  destruct crossfade0; cbn; [|constructor; assumption].
  destruct (gt0 t); cbn; constructor; cbn; auto;
    destruct Hv; subst; auto.
Qed.

Create HintDb keeps.

#[local] Hint Resolve keeps_ret keeps_throw keeps_gets keeps_this keeps_lift
  keeps_when keeps_effect keeps_bus_emit
  keeps_with_activeDeck keeps_with_visualContainer keeps_with_isInitialized
  keeps_with_timers keeps_with_now keeps_no_visuals keeps_fresh
  keeps_chain_init keeps_chain_dispose keeps_chain_getAudioData
  keeps_chain_connectToDeck keeps_chain_setCrossfade : keeps.

(** Splits a goal [keeps m] along the structure of [m]. *)
Ltac keeps_steps :=
  repeat first
    [ solve [auto with keeps]
    | apply keeps_bind; [|intros ?]
    | apply keeps_try_catch; [|intros ?]
    | apply keeps_forEach; intros ?
    | apply keeps_when
    | match goal with
      | |- keeps (match ?x with _ => _ end) => destruct x
      | |- keeps (let (_, _) := ?x in _) => destruct x
      end ].

Lemma forEach_trace_only {X} (f : X -> M Sys unit) :
  (forall x s, exists es, f x s = (log es s, Ok tt)) ->
  forall xs s, exists es, forEach xs f s = (log es s, Ok tt).
Proof.
  intros Hf. induction xs as [|x xs IH]; intros s; cbn.
  - exists []. unfold ret. now rewrite log_nil.
  - unfold bind. destruct (Hf x s) as [es1 H1]. rewrite H1.
    destruct (IH (log es1 s)) as [es2 H2]. rewrite H2, log_log.
    now exists (es1 ++ es2).
Qed.

(** Replaces a loop whose body only writes to the trace by its effect. *)
Ltac loop_trace :=
  match goal with
  | |- context [forEach ?xs ?f ?s0] =>
    let es := fresh "es" in
    let H := fresh "Hloop" in
    assert (H : exists es, forEach xs f s0 = (log es s0, Ok tt))
      by (apply forEach_trace_only; intros ? ?; eexists; reflexivity);
    destruct H as [es H]; rewrite H; clear H
  end.

(** ** The render loop *)

Ltac unfold_render :=
  unfold Controller.startRenderLoop, Controller.stopRenderLoop,
    Controller.render, requestAnimationFrame, cancelAnimationFrame,
    Chain.getAudioData.

(** One tick, run while no frame callback is pending. *)
Lemma render_idle (e : Engine) (tr : nat -> TransportState) (s : Sys) :
  Inv s -> frames (host s) = [] -> Inv (fst (Controller.render e tr s)).
Proof.
  intros Hs Hidle. destruct Hs as [H1 H2 H3 H4 H5 H6 H7].
  open_state s. subst. unfold_render. unfold_js. cbn.
  destruct ac_isInitialized0; cbn.
  1: destruct analyser0; cbn; [|constructor; auto].
  1: destruct waveformAnalyser0; cbn; [|constructor; auto].
  1: destruct meter0; cbn; [|constructor; auto].
  all: loop_trace; unfold_js; cbn.
  all: constructor; cbn; auto; try lia.
  all: try (intros h Hh; injection Hh as <-; lia).
  all: right; eexists; split; reflexivity.
Qed.

Lemma keeps_startRenderLoop (e : Engine) (tr : nat -> TransportState) :
  keeps (Controller.startRenderLoop e tr).
Proof.
  intros s Hs. unfold Controller.startRenderLoop, bind, this, gets. cbn.
  destruct (truthy (animationId (ctl s))) eqn:Hrun; [exact Hs|].
  apply render_idle; [exact Hs|].
  destruct (inv_frames s Hs) as [Hnone | (h & _ & Hid)]; [exact Hnone|].
  pose proof (inv_handle s Hs h Hid) as Hpos.
  rewrite Hid in Hrun. cbn in Hrun.
  destruct (Z.eqb_spec h 0); [lia | discriminate].
Qed.

Lemma keeps_stopRenderLoop : keeps Controller.stopRenderLoop.
Proof.
  intros s Hs. destruct Hs as [H1 H2 H3 H4 H5 H6 H7].
  open_state s. unfold_render. unfold_js. cbn.
  destruct animationId0 as [h|]; cbn; [|constructor; auto].
  destruct (Z.eqb_spec h 0); cbn; [constructor; auto|].
  constructor; cbn; auto; [discriminate|].
  left. destruct H4 as [-> | (h' & -> & Hid)]; [reflexivity|].
  injection Hid as <-. cbn. now rewrite Z.eqb_refl.
Qed.

Lemma keeps_frame (e : Engine) (tr : nat -> TransportState) :
  keeps (frame e tr).
Proof.
  intros s Hs.
  set (s0 := on_host (fun h => with_frames (frameCounter h) [] h) s).
  assert (Hs0 : Inv s0).
  { destruct Hs as [H1 H2 H3 H4 H5 H6 H7]. constructor; cbn; auto. }
  unfold frame, bind, gets, modify. cbn. fold s0.
  destruct (inv_frames s Hs) as [-> | (h & -> & _)]; cbn; [exact Hs0|].
  unfold bind, try_catch.
  pose proof (render_idle e tr s0 Hs0 eq_refl) as Hr.
  destruct (Controller.render e tr s0) as [s1 [[]|err]]; cbn in *.
  - exact Hr.
  - exact (keeps_effect (Uncaught err) s1 Hr).
Qed.

Lemma keeps_startCrossfade (d : number) : keeps (Controller.startCrossfade d).
Proof.
  intros s Hs. destruct Hs as [H1 H2 H3 H4 H5 H6 H7].
  open_state s. unfold_crossfade. unfold_js. cbn.
  destruct activeDeck0; cbn.
  1: destruct deckB0; cbn.
  3: destruct deckA0; cbn.
  all: try (constructor; cbn; now auto).
  all: destruct crossfade0; cbn; try (constructor; cbn; now auto).
  all: destruct (gt0 d); cbn; constructor; cbn; auto.
Qed.

Lemma NoDup_snoc {T} (x : T) (l : list T) :
  NoDup l -> ~ In x l -> NoDup (l ++ [x]).
Proof.
  induction l as [|y l IH]; cbn; intros Hnd Hx.
  - constructor; [intros []|constructor].
  - inversion Hnd as [|? ? Hy Hl]; subst. constructor.
    + rewrite in_app_iff. cbn. intuition congruence.
    + apply IH; [exact Hl | tauto].
Qed.

Lemma keeps_loadVisual (env : Env) (visualPath : string) (layer : number) :
  keeps (Controller.loadVisual env visualPath layer).
Proof.
  intros s Hs. destruct Hs as [H1 H2 H3 H4 H5 H6 H7].
  assert (Hv2 : forall id, In id (visual_ids s) ->
                  (id < S (S (nextObject (host s))))%nat).
  { intros id Hid. specialize (H6 id Hid). lia. }
  assert (Hs2 : forall d id, deck_song d s = Some id ->
                  (id < S (S (nextObject (host s))))%nat).
  { intros d id Hid. specialize (H7 d id Hid). lia. }
  open_state s. unfold visual_ids, deck_song in *. cbn in *.
  unfold Controller.loadVisual, Controller.new_Visual. unfold_js. cbn.
  destruct (import_visual env visualPath) as [m|]; cbn;
    [|constructor; cbn; now auto].
  destruct (vm_default m) as [c|]; cbn; [|constructor; cbn; now auto].
  destruct (vc_new c); cbn; [constructor; cbn; now auto|].
  destruct visualContainer0; cbn; [|constructor; cbn; now auto].
  destruct (vc_init c); cbn; [constructor; cbn; now auto|].
  constructor; cbn; auto.
  - rewrite map_app. cbn. apply NoDup_snoc; [exact H5|].
    intros Hin. specialize (H6 _ Hin). lia.
  - intros id. rewrite map_app, in_app_iff. cbn.
    intros [Hid | [<- | []]]; [now apply Hv2 | lia].
Qed.

(** ** Removing visuals *)

(** [indexOf] either misses, or finds the first element with the identity
    looked for. *)
Lemma indexOf_from_spec (v : Visual) (vs : list Visual) :
  forall i,
    (~ In (visual_id v) (map visual_id vs) /\ indexOf_from i vs v = -1) \/
    (exists l1 x l2,
        vs = l1 ++ x :: l2 /\
        visual_id x = visual_id v /\
        ~ In (visual_id v) (map visual_id l1) /\
        indexOf_from i vs v = i + Z.of_nat (List.length l1)).
Proof.
  induction vs as [|y vs IH]; intros i; cbn.
  - left. split; [tauto | reflexivity].
  - destruct (Nat.eqb_spec (visual_id y) (visual_id v)) as [Heq | Hne].
    + right. exists [], y, vs. cbn. repeat split; auto. lia.
    + destruct (IH (i + 1)) as [[Hout Hidx] | (l1 & x & l2 & -> & Hx & Hl1 & Hidx)].
      * left. split; [|exact Hidx]. intros [Hy | Hin]; [congruence | tauto].
      * right. exists (y :: l1), x, l2. cbn. repeat split; auto.
        -- intros [Hy | Hin]; [congruence | tauto].
        -- rewrite Hidx. lia.
Qed.

Lemma splice1_at (l1 l2 : list Visual) (x : Visual) :
  splice1 (Z.of_nat (List.length l1)) (l1 ++ x :: l2) = l1 ++ l2.
Proof.
  unfold splice1. rewrite Nat2Z.id.
  induction l1 as [|y l1 IH]; cbn; [reflexivity|].
  cbn in IH. now rewrite IH.
Qed.

(** What [removeVisual] does, by cases on the presence of the visual. *)
Lemma removeVisual_run (v : Visual) (s : Sys) :
  (~ In (visual_id v) (visual_ids s) /\ Controller.removeVisual v s = (s, Ok tt)) \/
  (exists l1 x l2,
      visuals (ctl s) = l1 ++ x :: l2 /\
      visual_id x = visual_id v /\
      Controller.removeVisual v s =
        (log ((match _canvas v with
               | Some c => [CanvasRemove (canvas_id c)]
               | None => []
               end) ++
              (if visual_dispose v then [VisualDispose (visual_id v)] else []))
             (on_ctl (with_visuals (l1 ++ l2)) s),
         Ok tt)).
Proof.
  unfold Controller.removeVisual, indexOf, visual_ids.
  destruct (indexOf_from_spec v (visuals (ctl s)) 0)
    as [[Hout Hidx] | (l1 & x & l2 & Hvs & Hx & Hl1 & Hidx)].
  - left. split; [exact Hout|].
    unfold bind, this, gets. cbn. rewrite Hidx. reflexivity.
  - right. exists l1, x, l2. repeat split; auto.
    unfold bind, this, gets. cbn. rewrite Hidx, Hvs.
    replace (-1 <? 0 + Z.of_nat (List.length l1)) with true
      by (symmetry; apply Z.ltb_lt; lia).
    cbn [Z.add]. rewrite splice1_at.
    open_state s. unfold_js. cbn.
    destruct (_canvas v), (visual_dispose v); cbn;
      rewrite <- ?app_assoc, ?app_nil_r; reflexivity.
Qed.

Lemma NoDup_remove_middle (l1 l2 : list nat) (x : nat) :
  NoDup (l1 ++ x :: l2) -> NoDup (l1 ++ l2) /\ ~ In x (l1 ++ l2).
Proof. apply NoDup_remove. Qed.

Lemma keeps_removeVisual (v : Visual) : keeps (Controller.removeVisual v).
Proof.
  intros s Hs.
  destruct (removeVisual_run v s) as [[_ ->] | (l1 & x & l2 & Hvs & Hx & ->)];
    [exact Hs|].
  destruct Hs as [H1 H2 H3 H4 H5 H6 H7]. unfold visual_ids in *.
  rewrite Hvs, map_app in H5, H6. cbn in H5, H6.
  constructor; cbn; auto; unfold visual_ids; cbn; rewrite map_app.
  - now apply NoDup_remove_middle in H5.
  - intros id Hid. apply H6. rewrite in_app_iff in *. cbn. tauto.
Qed.

(** On distinct visuals a second [removeVisual] finds nothing to remove. *)
Lemma removeVisual_twice (v : Visual) (s : Sys) :
  NoDup (visual_ids s) ->
  ~ In (visual_id v) (visual_ids (exec (Controller.removeVisual v) s)).
Proof.
  intros Hnd. unfold exec.
  destruct (removeVisual_run v s) as [[Hout ->] | (l1 & x & l2 & Hvs & Hx & ->)];
    [exact Hout|].
  unfold visual_ids in *. rewrite Hvs, map_app in Hnd. cbn in Hnd.
  apply NoDup_remove_middle in Hnd as [_ Hnot].
  cbn. rewrite map_app, <- Hx. exact Hnot.
Qed.

(** ** Every operation maintains the invariant *)

#[local] Hint Resolve keeps_startRenderLoop keeps_stopRenderLoop keeps_frame
  keeps_startCrossfade keeps_loadVisual keeps_removeVisual : keeps.

Lemma keeps_init (c : Container) : keeps (Controller.init c).
Proof. unfold Controller.init. keeps_steps. Qed.

Lemma keeps_loadSong (env : Env) (songPath : string) (deck : Deck) :
  keeps (Controller.loadSong env songPath deck).
Proof.
  intros s Hs. destruct Hs as [H1 H2 H3 H4 H5 H6 H7].
  assert (Hv1 : forall id, In id (visual_ids s) ->
                  (id < S (nextObject (host s)))%nat).
  { intros id Hid. specialize (H6 id Hid). lia. }
  assert (Hs1 : forall d id, deck_song d s = Some id ->
                  (id < S (nextObject (host s)))%nat).
  { intros d id Hid. specialize (H7 d id Hid). lia. }
  open_state s. unfold visual_ids, deck_song, Chain.position in *. cbn in *.
  unfold_loadSong. unfold_js. cbn.
  destruct (import_song env songPath) as [m|]; cbn;
    [|constructor; cbn; now auto].
  destruct (sm_default m) as [c|]; cbn; [|constructor; cbn; now auto].
  destruct (sc_new c); cbn; [constructor; cbn; now auto|].
  destruct (sc_init c); cbn; [constructor; cbn; now auto|].
  assert (Hnew : forall d id,
            option_map song_id
              (match d with A => deckA0 | B => deckB0 end) = Some id ->
            (id < S nextObject0)%nat) by exact Hs1.
  destruct deck, deckA0, deckB0, crossfade0, (sc_on c); cbn;
    constructor; cbn; auto;
    intros [] id Hid; cbn in Hid;
    try (injection Hid as <-; lia);
    try (apply (Hnew A id Hid)); try (apply (Hnew B id Hid)).
Qed.

Lemma keeps_play (e : Engine) (tr : nat -> TransportState) :
  keeps (Controller.play e tr).
Proof. unfold Controller.play. keeps_steps. Qed.

Lemma keeps_pause : keeps Controller.pause.
Proof. unfold Controller.pause. keeps_steps. Qed.

Lemma keeps_stop : keeps Controller.stop.
Proof. unfold Controller.stop. keeps_steps. Qed.

Lemma keeps_switchDeck : keeps Controller.switchDeck.
Proof.
  unfold Controller.switchDeck. apply keeps_bind; [auto with keeps|].
  intros active. cbv zeta. destruct active; keeps_steps.
Qed.

Lemma keeps_dispose : keeps Controller.dispose.
Proof. unfold Controller.dispose. keeps_steps. Qed.

Lemma keeps_on_sectionChange (d : Deck) (sec : string) :
  keeps (Controller.on_sectionChange d sec).
Proof. unfold Controller.on_sectionChange. keeps_steps. Qed.

Lemma keeps_on_bar (d : Deck) (b : number) : keeps (Controller.on_bar d b).
Proof. unfold Controller.on_bar. keeps_steps. Qed.

Lemma keeps_completion (d : Deck) : keeps (Controller.completion d).
Proof. unfold Controller.completion. keeps_steps. Qed.

Lemma keeps_advance (t : Z) : keeps (advance t).
Proof.
  unfold advance. apply keeps_bind; [auto with keeps|]. intros ts.
  destruct (partition (fun x => due x <=? t) ts) as [ready later].
  apply keeps_bind; [apply (keeps_with_timers (fun _ => later))|]. intros _.
  apply keeps_bind.
  - apply keeps_forEach. intros x. apply keeps_bind.
    + apply (keeps_with_now (fun h => Z.max (now h) (due x))).
    + intros _. apply keeps_completion.
  - intros _. apply (keeps_with_now (fun h => Z.max (now h) t)).
Qed.

Lemma step_Inv (env : Env) (o : Op) (s : Sys) : Inv s -> Inv (step env o s).
Proof.
  destruct o; cbn [step]; unfold exec.
  - apply keeps_init.
  - apply keeps_loadSong.
  - apply keeps_loadVisual.
  - apply keeps_removeVisual.
  - apply keeps_play.
  - apply keeps_pause.
  - apply keeps_stop.
  - apply keeps_startCrossfade.
  - apply keeps_switchDeck.
  - apply keeps_startRenderLoop.
  - apply keeps_stopRenderLoop.
  - apply keeps_dispose.
  - apply keeps_on_sectionChange.
  - apply keeps_on_bar.
  - apply keeps_advance.
  - apply keeps_frame.
Qed.

Lemma run_Inv (env : Env) (ops : list Op) :
  forall s, Inv s -> Inv (run env ops s).
Proof.
  induction ops as [|o ops IH]; intros s Hs; [exact Hs|].
  cbn. apply IH, step_Inv, Hs.
Qed.

(** Every state reached from a new controller satisfies the invariant. *)
Lemma reachable_Inv (env : Env) (ops : list Op) : Inv (run env ops boot).
Proof. apply run_Inv, boot_Inv. Qed.

(** ** Properties of reachable states *)

(** C3: in every state the controller can reach, a successful [loadSong]
    into a deck that already holds a song runs in two stretches.  The first
    ends right after [dispose()] was called on the previous song, with the
    controller untouched, so that the deck slot still holds the previous
    song at that point; the second starts with the assignment of the slot.
    Over the whole call [dispose()] is called on the previous song exactly
    once and never on the new one, the new song is a different object, the
    deck slot ends up holding the new song and the other deck is untouched. *)
Theorem loadSong_disposes_previous_once
  (env : Env) (ops : list Op) (songPath : string) (deck : Deck)
  (s' : Sys) (old new : Song) :
  let s := run env ops boot in
  deck_slot deck (ctl s) = Some old ->
  Controller.loadSong env songPath deck s = (s', Ok new) ->
  exists s0 s1,
    s0 = log [ConsoleLog ("[DJController] Loading song into Deck " +++
                          Deck_name deck +++ ": " +++ songPath)] s /\
    Controller.loadSong_prepare env songPath deck s0 = (s1, Ok new) /\
    Controller.loadSong_install deck new s1 = (s', Ok new) /\
    ctl s1 = ctl s /\
    deck_slot deck (ctl s1) = Some old /\
    trace (host s1) =
      trace (host s0) ++ [SongInit (song_id new); SongDispose (song_id old)] /\
    deck_slot deck (ctl s') = Some new /\
    deck_slot (opposite deck) (ctl s') = deck_slot (opposite deck) (ctl s) /\
    song_id new <> song_id old /\
    exists added,
      trace (host s') = trace (host s) ++ added /\
      dispose_calls (song_id old) added = 1%nat /\
      dispose_calls (song_id new) added = 0%nat.
Proof.
  intros s Hold Hrun.
  apply (loadSong_success_run env songPath deck s s' old new Hold); [|exact Hrun].
  apply (inv_songs s (reachable_Inv env ops) deck).
  unfold deck_song. rewrite Hold. reflexivity.
Qed.

Lemma chain_step_fade_in_range (o : ChainOp) (c : AudioChain) :
  fade_in_range c -> fade_in_range (chain_step o c).
Proof.
  intros Hc. destruct o; cbn [chain_step].
  - cbn. auto.
  - unfold exec. rewrite getAudioData_pure. exact Hc.
  - rewrite connectToDeck_state. unfold fade_in_range in *.
    destruct (crossfade c) as [x|] eqn:Hx; [|rewrite Hx; exact Hc].
    destruct deck; exact Hc.
  - rewrite setCrossfade_state. unfold fade_in_range in *.
    destruct (crossfade c) as [x|] eqn:Hx; [|rewrite Hx; exact Hc].
    destruct (in_unit_interval value) eqn:Hv; [|rewrite Hx; exact Hc].
    destruct (gt0 rampTime); cbn; tauto.
  - destruct (setMasterVolume_taps db c) as (_ & _ & _ & _ & Hcf).
    unfold fade_in_range in *. cbv zeta in Hcf. rewrite Hcf. exact Hc.
  - unfold fade_in_range in *. cbn.
    destruct (crossfade c) as [x|]; exact Hc.
Qed.

Lemma chain_run_fade_in_range (ops : list ChainOp) :
  forall c, fade_in_range c -> fade_in_range (chain_run ops c).
Proof.
  induction ops as [|o ops IH]; intros c Hc; [exact Hc|].
  apply (IH (chain_step o c)), chain_step_fade_in_range, Hc.
Qed.

(** C6: whatever value and ramp time [setCrossfade] is given, on whatever
    chain a sequence of calls has produced, the crossfade position
    afterwards is inside [0, 1], and so are both ends of a ramp.  The source
    passes the value on unchanged; it is the engine that refuses one outside
    [0, 1] with a [RangeError], and where no ramp was requested since the
    last assignment the chain is then exactly as before.  A value inside
    [0, 1] becomes the target of a ramp of the given time when that time is
    positive, with the value assigned before kept as the start, and is
    assigned at once, cancelling any ramp, otherwise.  Without a crossfade
    node the call fails before it reaches the engine. *)
Theorem setCrossfade_position (ops : list ChainOp) (v t : number) :
  let c := chain_run ops Chain.constructor in
  let c' := exec (Chain.setCrossfade v t) c in
  position_in_range c' /\
  fade_in_range c' /\
  (forall x, crossfade c = Some x -> in_unit_interval v = false ->
     outcome (Chain.setCrossfade v t) c = Throw out_of_range /\
     (p_ramp (fade x) = None -> c' = c)) /\
  (forall x, crossfade c = Some x -> in_unit_interval v = true ->
     outcome (Chain.setCrossfade v t) c = Ok tt /\
     Chain.position c' = Some v /\
     option_map fade (crossfade c') =
       Some (if gt0 t
             then {| p_value := p_value (fade x); p_ramp := Some (v, t) |}
             else {| p_value := Some v; p_ramp := None |})) /\
  (crossfade c = None ->
     Chain.setCrossfade v t c =
       (c, Throw (TypeError "Cannot read properties of null: fade"))).
Proof.
  intros c c'.
  assert (Hc : fade_in_range c)
    by (apply chain_run_fade_in_range; exact I).
  assert (Hc' : fade_in_range c')
    by (apply (chain_step_fade_in_range (CSetCrossfade v t)), Hc).
  split; [|split; [exact Hc'|]].
  - unfold position_in_range, Chain.position, Param_position.
    unfold fade_in_range, number_in_range in Hc'.
    destruct (crossfade c') as [x'|]; [|exact I].
    destruct Hc' as [Hval Hramp].
    destruct (p_ramp (fade x')) as [[target time]|]; [exact Hramp | exact Hval].
  - split; [|split].
    + intros x Hx Hv. subst c'.
      unfold outcome, exec, Chain.setCrossfade, normalRange_rampTo,
        normalRange_assign, settle, bind, gets, throw. rewrite Hx, Hv.
      destruct (gt0 t); split; reflexivity.
    + intros x Hx Hv. subst c'.
      unfold outcome, exec, Chain.position, Chain.setCrossfade,
        normalRange_rampTo, normalRange_assign, settle, bind, gets, modify, ret.
      rewrite Hx, Hv. destruct (gt0 t); cbn; repeat split.
    + intros Hx. unfold Chain.setCrossfade, bind, gets. rewrite Hx. reflexivity.
Qed.

Lemma setCrossfade_position_witness :
  crossfade (chain_run [CInit] Chain.constructor) =
    Some (Chain.cf_connect ToMeter
            (Chain.cf_connect ToWaveformAnalyser
               (Chain.cf_connect ToAnalyser
                  (Chain.cf_connect ToMaster Chain.Tone_CrossFade)))) /\
  in_unit_interval (Num 2) = false /\
  outcome (Chain.setCrossfade (Num 2) (Num 0))
          (chain_run [CInit] Chain.constructor) = Throw out_of_range /\
  in_unit_interval (Num 1) = true /\
  Chain.position
    (exec (Chain.setCrossfade (Num 1) (Num 4))
          (chain_run [CInit] Chain.constructor)) = Some (Num 1).
Proof.
  destruct (setCrossfade_position [CInit] (Num 2) (Num 0))
    as (_ & _ & Hout & _).
  destruct (setCrossfade_position [CInit] (Num 1) (Num 4))
    as (_ & _ & _ & Hin & _).
  split; [reflexivity|]. split; [reflexivity|].
  split; [exact (proj1 (Hout _ eq_refl eq_refl))|]. split; [reflexivity|].
  exact (proj1 (proj2 (Hin _ eq_refl eq_refl))).
Defined.

Lemma stopRenderLoop_clears (s : Sys) :
  Inv s ->
  Controller.stopRenderLoop s = (exec Controller.stopRenderLoop s, Ok tt) /\
  frames (host (exec Controller.stopRenderLoop s)) = [] /\
  animationId (ctl (exec Controller.stopRenderLoop s)) = None.
Proof.
  intros [H1 H2 H3 H4 H5 H6 H7].
  open_state s. unfold_render. unfold_js. cbn.
  destruct animationId0 as [h|]; cbn.
  - specialize (H3 h eq_refl).
    destruct (Z.eqb_spec h 0); [lia|]. cbn. repeat split.
    destruct H4 as [-> | (h' & -> & Hid)]; [reflexivity|].
    injection Hid as <-. cbn. now rewrite Z.eqb_refl.
  - repeat split. destruct H4 as [-> | (h' & _ & Hid)];
      [reflexivity | discriminate Hid].
Qed.

(** C7: in every state the controller can reach at most one frame callback
    is pending, and it is the one [animationId] names.  [startRenderLoop]
    on a running loop returns at once without changing anything, and
    [stopRenderLoop] leaves no pending callback and [animationId] null. *)
Theorem render_loop_single_callback
  (env : Env) (ops : list Op) (e : Engine) (tr : nat -> TransportState) :
  let s := run env ops boot in
  (List.length (frames (host s)) <= 1)%nat /\
  (forall h, In h (frames (host s)) -> animationId (ctl s) = Some h) /\
  (truthy (animationId (ctl s)) = true ->
   Controller.startRenderLoop e tr s = (s, Ok tt)) /\
  outcome Controller.stopRenderLoop s = Ok tt /\
  frames (host (exec Controller.stopRenderLoop s)) = [] /\
  animationId (ctl (exec Controller.stopRenderLoop s)) = None.
Proof.
  intros s. pose proof (reachable_Inv env ops) as Hs. fold s in Hs.
  split; [|split; [|split]].
  - destruct (inv_frames s Hs) as [-> | (h & -> & _)]; cbn; lia.
  - intros h Hh.
    destruct (inv_frames s Hs) as [Hnone | (h' & Hone & Hid)].
    + rewrite Hnone in Hh. destruct Hh.
    + rewrite Hone in Hh. destruct Hh as [<- | []]. exact Hid.
  - intros Hrun. unfold Controller.startRenderLoop, bind, this, gets. cbn.
    rewrite Hrun. reflexivity.
  - destruct (stopRenderLoop_clears s Hs) as (Hok & Hfr & Hid).
    unfold outcome. rewrite Hok. auto.
Qed.

(** After [play()] the loop runs; a second [startRenderLoop] changes nothing. *)
Lemma render_loop_single_callback_witness :
  let s := run sample_env [Init sample_box; Play sample_engine sample_transport]
               boot in
  truthy (animationId (ctl s)) = true /\
  Controller.startRenderLoop sample_engine sample_transport s = (s, Ok tt).
Proof.
  cbv zeta.
  assert (Hrun : truthy (animationId (ctl
            (run sample_env [Init sample_box; Play sample_engine sample_transport]
                 boot))) = true) by reflexivity.
  split; [exact Hrun|].
  exact (proj1 (proj2 (proj2
    (render_loop_single_callback
       sample_env [Init sample_box; Play sample_engine sample_transport]
       sample_engine sample_transport))) Hrun).
Defined.

(** C8: in every state the controller can reach, [removeVisual(v)] for a
    visual that is not in the list changes nothing at all, and
    [removeVisual(v)] for one that is in the list takes it out, removes its
    canvas and calls its [dispose] hook, once each.  Either way a second
    [removeVisual(v)] right after the first changes nothing. *)
Theorem removeVisual_idempotent (env : Env) (ops : list Op) (v : Visual) :
  let s := run env ops boot in
  let s1 := exec (Controller.removeVisual v) s in
  (~ In (visual_id v) (visual_ids s) ->
   Controller.removeVisual v s = (s, Ok tt)) /\
  Controller.removeVisual v s1 = (s1, Ok tt) /\
  (In (visual_id v) (visual_ids s) ->
   ~ In (visual_id v) (visual_ids s1) /\
   S (List.length (visuals (ctl s1))) = List.length (visuals (ctl s)) /\
   trace (host s1) =
     trace (host s) ++
     (match _canvas v with
      | Some c => [CanvasRemove (canvas_id c)]
      | None => []
      end) ++
     (if visual_dispose v then [VisualDispose (visual_id v)] else [])).
Proof.
  intros s s1. pose proof (reachable_Inv env ops) as Hs. fold s in Hs.
  assert (Hgone : ~ In (visual_id v) (visual_ids s1))
    by (apply removeVisual_twice, (inv_visuals s Hs)).
  split; [|split].
  - intros Hout. destruct (removeVisual_run v s) as [[_ Hrun] | (l1 & x & l2 & Hvs & Hx & _)];
      [exact Hrun|].
    exfalso. apply Hout. unfold visual_ids. rewrite Hvs, map_app, in_app_iff.
    cbn. auto.
  - destruct (removeVisual_run v s1) as [[_ Hrun] | (l1 & x & l2 & Hvs & Hx & _)];
      [exact Hrun|].
    exfalso. apply Hgone. unfold visual_ids. rewrite Hvs, map_app, in_app_iff.
    cbn. auto.
  - intros Hin. split; [exact Hgone|]. subst s1. unfold exec.
    destruct (removeVisual_run v s) as [[Hout _] | (l1 & x & l2 & Hvs & Hx & ->)];
      [tauto|].
    cbn. rewrite Hvs, !length_app. cbn. split; [lia | reflexivity].
Qed.

Lemma removeVisual_idempotent_witness :
  let s := run sample_env bars_loaded boot in
  In (visual_id bars) (visual_ids s) /\
  trace (host (exec (Controller.removeVisual bars) s)) =
    trace (host s) ++ [CanvasRemove 1; VisualDispose 0] /\
  exec (Controller.removeVisual bars) (exec (Controller.removeVisual bars) s) =
    exec (Controller.removeVisual bars) s.
Proof.
  cbv zeta.
  assert (Hin : In (visual_id bars) (visual_ids (run sample_env bars_loaded boot)))
    by (left; reflexivity).
  destruct (removeVisual_idempotent sample_env bars_loaded bars)
    as (_ & Htwice & Honce).
  destruct (Honce Hin) as (_ & _ & Htrace).
  split; [exact Hin|]. split; [exact Htrace|].
  unfold exec at 1. rewrite Htwice. reflexivity.
Defined.

(** ** The properties on the sample inputs *)

Lemma getAudioData_silence_or_live_witness :
  forallb (fun o => negb (is_CInit o)) [CSetMasterVolume (Num (-6))] = true /\
  graph_up false ([CInit] ++ CDispose :: [CSetMasterVolume (Num (-6))]) = false /\
  Chain.getAudioData sample_engine (chain_run [CInit] Chain.constructor) =
    (chain_run [CInit] Chain.constructor, Ok (live sample_engine)).
Proof.
  destruct (getAudioData_silence_or_live sample_engine [CInit])
    as (Hget & _ & _ & _ & Hdown & _).
  split; [reflexivity|]. split.
  - apply Hdown. reflexivity.
  - exact Hget.
Defined.

Lemma loadSong_failure_keeps_deck_witness :
  load_fails sample_env "songs/broken.js" (PluginError "init failed") /\
  outcome (Controller.loadSong sample_env "songs/broken.js" A) both_loaded =
    Throw (PluginError "init failed") /\
  ctl (exec (Controller.loadSong sample_env "songs/broken.js" A) both_loaded) =
    ctl both_loaded.
Proof.
  assert (Hfail : load_fails sample_env "songs/broken.js"
                             (PluginError "init failed")).
  { apply (init_fails sample_env "songs/broken.js"
             {| sm_default := Some broken_song |} broken_song);
      reflexivity. }
  destruct (loadSong_failure_keeps_deck
              sample_env "songs/broken.js" A both_loaded _ Hfail)
    as (Hout & Hctl & _).
  split; [exact Hfail|]. split; [exact Hout | exact Hctl].
Defined.

Lemma loadSong_disposes_previous_once_witness :
  let s := run sample_env both_loaded_ops boot in
  let s' := exec (Controller.loadSong sample_env "songs/night.js" A) s in
  let new := {| song_id := 2; song_name := Some "night"; song_on := false;
                song_getState := false; song_init := None |} in
  deck_slot A (ctl s) = Some demo /\
  Controller.loadSong sample_env "songs/night.js" A s = (s', Ok new) /\
  deck_slot A (ctl s') = Some new /\
  exists added,
    trace (host s') = trace (host s) ++ added /\
    dispose_calls (song_id demo) added = 1%nat.
Proof.
  cbv zeta.
  assert (H1 : deck_slot A (ctl (run sample_env both_loaded_ops boot)) = Some demo)
    by (vm_compute; reflexivity).
  assert (H3 : Controller.loadSong sample_env "songs/night.js" A
                 (run sample_env both_loaded_ops boot) =
               (exec (Controller.loadSong sample_env "songs/night.js" A)
                     (run sample_env both_loaded_ops boot),
                Ok {| song_id := 2; song_name := Some "night"; song_on := false;
                      song_getState := false; song_init := None |}))
    by (vm_compute; reflexivity).
  destruct (loadSong_disposes_previous_once _ _ _ _ _ _ _ H1 H3)
    as (s0 & s1 & _ & _ & _ & _ & _ & _ & Hslot & _ & _ & added & Htr & Hold & _).
  repeat (split; [assumption|]).
  exists added. split; assumption.
Defined.

Lemma switchDeck_has_no_deck_guard_witness :
  let s := run sample_env [Init sample_box] boot in
  (exists x, crossfade (audioChain (ctl s)) = Some x) /\
  deck_slot B (ctl s) = None /\
  activeDeck (ctl (exec Controller.switchDeck s)) = B /\
  Chain.position (audioChain (ctl (exec Controller.switchDeck s))) =
    Some (Num 1).
Proof.
  cbv zeta.
  assert (Hcf : exists x,
             crossfade (audioChain (ctl (run sample_env [Init sample_box] boot))) =
             Some x)
    by (vm_compute; eexists; reflexivity).
  destruct Hcf as [x Hcf].
  destruct (switchDeck_has_no_deck_guard
              (run sample_env [Init sample_box] boot) x (Num 4) Hcf)
    as (_ & Hflip & Hpos & _).
  split; [exists x; exact Hcf|]. split; [vm_compute; reflexivity|].
  split; [exact Hflip | exact Hpos].
Defined.

(** * Further properties *)

(** ** Relating the states before and after a computation *)

Section Moves.

Context {R : Sys -> Sys -> Prop} `{!PreOrder R}.
Context {X Y : Type}.

Lemma moves_ret (x : X) : moves R (ret x).
Proof. intros s. reflexivity. Qed.

Lemma moves_throw (e : Error) : moves R (@throw Sys X e).
Proof. intros s. reflexivity. Qed.

Lemma moves_gets (f : Sys -> X) : moves R (gets f).
Proof. intros s. reflexivity. Qed.

Lemma moves_lift (r : result X) : moves R (lift r).
Proof. intros s. destruct r; reflexivity. Qed.

Lemma moves_modify (g : Sys -> Sys) :
  (forall s, R s (g s)) -> moves R (modify g).
Proof. intros Hg s. apply Hg. Qed.

Lemma moves_zoom {T} (get : Sys -> T) (set : T -> Sys -> Sys) (m : M T X) :
  (forall t s, R s (set t s)) -> moves R (zoom get set m).
Proof.
  intros Hset s. unfold zoom. destruct (m (get s)) as [t r]. apply Hset.
Qed.

Lemma moves_bind (m : M Sys X) (k : X -> M Sys Y) :
  moves R m -> (forall x, moves R (k x)) -> moves R (bind m k).
Proof.
  intros Hm Hk s. unfold bind. specialize (Hm s).
  destruct (m s) as [s1 [x|e]]; cbn in *; [|exact Hm].
  transitivity s1; [exact Hm | apply Hk].
Qed.

Lemma moves_try_catch (m : M Sys X) (h : Error -> M Sys X) :
  moves R m -> (forall e, moves R (h e)) -> moves R (try_catch m h).
Proof.
  intros Hm Hh s. unfold try_catch. specialize (Hm s).
  destruct (m s) as [s1 [x|e]]; cbn in *; [exact Hm|].
  transitivity s1; [exact Hm | apply Hh].
Qed.

Lemma moves_forEach (xs : list X) (f : X -> M Sys unit) :
  (forall x, moves R (f x)) -> moves R (forEach xs f).
Proof.
  intros Hf. induction xs as [|x xs IH]; cbn.
  - intros s. reflexivity.
  - intros s. unfold bind. specialize (Hf x s).
    destruct (f x s) as [s1 [[]|e]]; cbn in *; [|exact Hf].
    transitivity s1; [exact Hf | apply IH].
Qed.

End Moves.

#[local] Instance same_PreOrder {T} (f : Sys -> T) : PreOrder (same f).
Proof.
  split; [intros s; reflexivity|].
  intros s1 s2 s3 H12 H23. unfold same in *. congruence.
Qed.

Lemma chain_run_app (xs ys : list ChainOp) (c : AudioChain) :
  chain_run (xs ++ ys) c = chain_run ys (chain_run xs c).
Proof. apply fold_left_app. Qed.

#[local] Instance via_chain_methods_PreOrder : PreOrder via_chain_methods.
Proof.
  split.
  - intros s. now exists [].
  - intros s1 s2 s3 [xs Hxs] [ys Hys]. exists (xs ++ ys).
    now rewrite Hys, Hxs, chain_run_app.
Qed.

(** Opens a state into its fields, under fixed names. *)
Ltac open_sys s :=
  destruct s as [[[s_cf s_an s_wf s_mt s_ms s_up]
                    s_dA s_dB s_act s_vs s_box s_ini s_aid]
                   [s_tr s_now s_ts s_fc s_fr s_nx]];
  cbn in *.

(** The derived operations of the embedding, so that a method unfolds to
    [bind], [gets], [modify] and [zoom]. *)
Ltac unfold_ops :=
  unfold Controller.init, Controller.loadSong, Controller.loadSong_prepare,
    Controller.loadSong_install, Controller.new_Song, Controller.Song_init,
    Controller.on_sectionChange, Controller.on_bar, Controller.loadVisual,
    Controller.new_Visual, Controller.removeVisual, Controller.play,
    Controller.pause, Controller.stop, Controller.startCrossfade,
    Controller.startCrossfade_begin, Controller.startCrossfade_resume,
    Controller.switchDeck, Controller.dispose, advance, frame,
    Controller.startRenderLoop, Controller.stopRenderLoop,
    Controller.render, Controller.completion,
    setTimeout, requestAnimationFrame, cancelAnimationFrame,
    bus_emit, this, assign, effect, fresh, when_.

(** Splits a goal [moves R m] along the structure of [m]; [leaf] closes
    the goals left for the state changes themselves. *)
Ltac moves_step leaf :=
  lazymatch goal with
  | |- moves _ (ret _) => apply moves_ret
  | |- moves _ (throw _) => apply moves_throw
  | |- moves _ (gets _) => apply moves_gets
  | |- moves _ (lift _) => apply moves_lift
  | |- moves _ (bind _ _) => apply moves_bind; [|intros ?]
  | |- moves _ (try_catch _ _) => apply moves_try_catch; [|intros ?]
  | |- moves _ (forEach _ _) => apply moves_forEach; intros ?
  | |- moves _ (modify _) => apply moves_modify; intros ?; leaf
  | |- moves _ (match ?x with _ => _ end) => destruct x
  | |- moves _ (let (_, _) := ?x in _) => destruct x
  | |- moves _ (let _ := _ in _) => cbv zeta
  | |- _ => leaf
  end.

Ltac moves_steps leaf := repeat (moves_step leaf).

(** ** The controller and its audio chain *)

Lemma moves_chain_method {X} (m : M AudioChain X) (o : ChainOp) :
  (forall c, fst (m c) = chain_step o c) ->
  moves via_chain_methods (chain m).
Proof.
  intros Hm s. exists [o]. unfold chain, zoom. specialize (Hm (audioChain (ctl s))).
  destruct (m (audioChain (ctl s))) as [c r]. cbn in *. now subst c.
Qed.

Ltac chain_method :=
  match goal with
  | |- moves _ (chain Chain.init) => apply (moves_chain_method _ CInit)
  | |- moves _ (chain Chain.dispose) => apply (moves_chain_method _ CDispose)
  | |- moves _ (chain (Chain.getAudioData ?e)) =>
    apply (moves_chain_method _ (CGetAudioData e))
  | |- moves _ (chain (Chain.connectToDeck ?x ?d)) =>
    apply (moves_chain_method _ (CConnectToDeck x d))
  | |- moves _ (chain (Chain.setCrossfade ?v ?t)) =>
    apply (moves_chain_method _ (CSetCrossfade v t))
  end; intros ?; reflexivity.

Ltac chain_untouched := exists []; reflexivity.

Lemma step_via_chain_methods (env : Env) (o : Op) :
  forall s, via_chain_methods s (step env o s).
Proof.
  destruct o; cbn [step]; unfold exec;
    match goal with |- forall s, _ s (fst (?m s)) => change (moves via_chain_methods m) end;
    unfold_ops; moves_steps ltac:(first [chain_method | chain_untouched]).
Qed.

Lemma run_via_chain_methods (env : Env) (ops : list Op) :
  forall s, via_chain_methods s (run env ops s).
Proof.
  induction ops as [|o ops IH]; intros s; [reflexivity|].
  cbn. transitivity (step env o s);
    [apply step_via_chain_methods | apply IH].
Qed.

Lemma reachable_chain_sound (env : Env) (ops : list Op) :
  chain_sound (audioChain (ctl (run env ops boot))).
Proof.
  destruct (run_via_chain_methods env ops boot) as [cops ->].
  apply chain_run_sound, constructor_sound.
Qed.

Lemma getAudioData_sound (e : Engine) (c : AudioChain) :
  chain_sound c -> Chain.getAudioData e c = (c, Ok (audioData_of e c)).
Proof.
  intros Hc. unfold audioData_of.
  destruct (ac_isInitialized c) eqn:Hflag.
  - apply getAudioData_ready, Hc, Hflag.
  - apply getAudioData_uninitialized, Hflag.
Qed.

(** X1: the controller never writes to the audio chain's fields: whatever
    sequence of operations, timer firings and frames runs, the chain it
    holds is a new chain on which some of the chain's own methods were
    called.  Hence in every state the controller can reach [getAudioData]
    returns normally, with the live readings when the chain's flag is up
    and the silent default otherwise. *)
Theorem controller_uses_chain_methods_only
  (env : Env) (ops : list Op) (e : Engine) :
  let c := audioChain (ctl (run env ops boot)) in
  (exists cops, c = chain_run cops Chain.constructor) /\
  Chain.getAudioData e c = (c, Ok (audioData_of e c)).
Proof.
  intros c. split.
  - apply (run_via_chain_methods env ops boot).
  - apply getAudioData_sound, reachable_chain_sound.
Qed.

(** ** Ticks of the render loop *)

Lemma forEach_effect {X} (g : X -> Effect) (xs : list X) :
  forall s, forEach xs (fun x => effect (g x)) s = (log (map g xs) s, Ok tt).
Proof.
  induction xs as [|x xs IH]; intros s; cbn.
  - unfold ret. now rewrite log_nil.
  - unfold bind. cbn. rewrite IH.
    change (on_host (fun h => with_trace (trace h ++ [g x]) h) s)
      with (log [g x] s).
    now rewrite log_log.
Qed.

Lemma chain_getAudioData_sound (e : Engine) (s : Sys) :
  chain_sound (audioChain (ctl s)) ->
  chain (Chain.getAudioData e) s =
    (s, Ok (audioData_of e (audioChain (ctl s)))).
Proof.
  intros Hc. unfold chain, zoom. rewrite (getAudioData_sound e _ Hc).
  destruct s as [[] ?]. reflexivity.
Qed.

(** One tick on a chain whose flag is only up over existing nodes. *)
Lemma render_run (e : Engine) (tr : nat -> TransportState) (s : Sys) :
  chain_sound (audioChain (ctl s)) ->
  Controller.render e tr s =
    (on_ctl (with_animationId (Some (frameCounter (host s) + 1)))
       (on_host (fun h => with_frames (frameCounter h + 1)
                                      (frames h ++ [frameCounter h + 1]) h)
          (log (renders e tr s) s)),
     Ok tt).
Proof.
  intros Hc. unfold Controller.render, bind.
  rewrite (chain_getAudioData_sound e s Hc).
  unfold this, gets. cbn.
  rewrite forEach_effect. reflexivity.
Qed.

(** ** What each operation leaves alone *)

Ltac as_moves R :=
  match goal with
  | |- forall s, _ =>
    let s := fresh "s" in
    intros s;
    match goal with
    | |- context [fst (?m s)] => revert s; change (moves R m)
    end
  end.

Ltac same_leaf :=
  first [ unfold same; reflexivity
        | unfold chain; apply moves_zoom; intros ? ?; unfold same; reflexivity ].

Lemma step_same_activeDeck (env : Env) (o : Op) :
  is_SwitchDeck o = false -> is_Advance o = false ->
  forall s, same (fun s => activeDeck (ctl s)) s (step env o s).
Proof.
  intros Hsw Hadv. destruct o; try discriminate; cbn [step]; unfold exec;
    as_moves (same (fun s => activeDeck (ctl s)));
    unfold_ops; moves_steps same_leaf.
Qed.

Lemma step_same_decks (env : Env) (o : Op) :
  is_LoadSong o = false ->
  forall s, same (fun s => (deckA (ctl s), deckB (ctl s))) s (step env o s).
Proof.
  intros Hload. destruct o; try discriminate; cbn [step]; unfold exec;
    as_moves (same (fun s => (deckA (ctl s), deckB (ctl s))));
    unfold_ops; moves_steps same_leaf.
Qed.

#[local] Instance timers_kept_PreOrder : PreOrder timers_kept.
Proof.
  split; [intros s; apply incl_refl|].
  intros s1 s2 s3. apply incl_tran.
Qed.

Lemma insert_timer_In (t x : Timer) (ts : list Timer) :
  In x (insert_timer t ts) <-> x = t \/ In x ts.
Proof.
  induction ts as [|u ts IH]; cbn; [intuition congruence|].
  destruct (due u <=? due t); cbn; [rewrite IH|]; intuition congruence.
Qed.

Ltac timers_leaf :=
  first [ unfold timers_kept; cbn; apply incl_refl
        | unfold timers_kept; cbn; intros ? ?; apply insert_timer_In; now right
        | unfold chain; apply moves_zoom; intros ? ?;
          unfold timers_kept; cbn; apply incl_refl ].

Lemma step_timers_kept (env : Env) (o : Op) :
  is_Advance o = false -> forall s, timers_kept s (step env o s).
Proof.
  intros Hadv. destruct o; try discriminate; cbn [step]; unfold exec;
    as_moves timers_kept; unfold_ops; moves_steps timers_leaf.
Qed.

Lemma run_cons (env : Env) (o : Op) (ops : list Op) (s : Sys) :
  run env (o :: ops) s = run env ops (step env o s).
Proof. reflexivity. Qed.

(** X3: [activeDeck] is written by [switchDeck] and by the completion of a
    crossfade, and by nothing else: over any sequence of the other
    operations (loading, playing, pausing, stopping, starting a crossfade,
    rendering, disposing) it keeps its value. *)
Theorem activeDeck_written_by_switch_or_completion_only
  (env : Env) (ops : list Op) (s : Sys) :
  no_switch_or_timer ops = true ->
  activeDeck (ctl (run env ops s)) = activeDeck (ctl s).
Proof.
  revert s. induction ops as [|o ops IH]; intros s Hops; [reflexivity|].
  cbn in Hops. apply andb_true_iff in Hops as [Ho Hops].
  apply negb_true_iff, orb_false_iff in Ho as [Hsw Hadv].
  rewrite run_cons, (IH _ Hops).
  apply (step_same_activeDeck env o Hsw Hadv s).
Qed.

Lemma activeDeck_written_by_switch_or_completion_only_witness :
  no_switch_or_timer
    [StartCrossfade (Num 4); Stop; Dispose; LoadSong "songs/demo.js" B] = true /\
  activeDeck
    (ctl (run sample_env
              [StartCrossfade (Num 4); Stop; Dispose; LoadSong "songs/demo.js" B]
              both_loaded)) =
  activeDeck (ctl both_loaded).
Proof.
  split; [reflexivity|].
  apply (activeDeck_written_by_switch_or_completion_only
           sample_env
           [StartCrossfade (Num 4); Stop; Dispose; LoadSong "songs/demo.js" B]
           both_loaded).
  reflexivity.
Defined.

(** X4: the deck slots are written by [loadSong] and by nothing else.  In
    particular [stop] and [dispose], which stop and dispose of the songs,
    leave both slots holding them. *)
Theorem deck_slots_written_by_loadSong_only
  (env : Env) (ops : list Op) (s : Sys) :
  no_LoadSong ops = true ->
  deckA (ctl (run env ops s)) = deckA (ctl s) /\
  deckB (ctl (run env ops s)) = deckB (ctl s).
Proof.
  revert s. induction ops as [|o ops IH]; intros s Hops; [split; reflexivity|].
  cbn in Hops. apply andb_true_iff in Hops as [Ho Hops].
  apply negb_true_iff in Ho.
  rewrite run_cons. destruct (IH (step env o s) Hops) as [HA HB].
  rewrite HA, HB.
  pose proof (step_same_decks env o Ho s) as Hsame. unfold same in Hsame.
  injection Hsame as -> ->. split; reflexivity.
Qed.

Lemma deck_slots_written_by_loadSong_only_witness :
  no_LoadSong [Stop; Dispose; SwitchDeck] = true /\
  deckA (ctl (run sample_env [Stop; Dispose; SwitchDeck] both_loaded)) =
    deckA (ctl both_loaded).
Proof.
  split; [reflexivity|].
  apply (deck_slots_written_by_loadSong_only
           sample_env [Stop; Dispose; SwitchDeck] both_loaded).
  reflexivity.
Defined.

(** X5: nothing cancels a scheduled crossfade completion.  Over any sequence
    of operations in which no timer fires, every pending completion stays
    pending: [switchDeck], [stop], a further [startCrossfade] and even
    [dispose] leave it scheduled. *)
Theorem pending_completion_never_cancelled
  (env : Env) (ops : list Op) (s : Sys) (t : Timer) :
  no_Advance ops = true ->
  In t (timers (host s)) ->
  In t (timers (host (run env ops s))).
Proof.
  revert s. induction ops as [|o ops IH]; intros s Hops Ht; [exact Ht|].
  cbn in Hops. apply andb_true_iff in Hops as [Ho Hops].
  apply negb_true_iff in Ho.
  rewrite run_cons. apply (IH _ Hops).
  apply (step_timers_kept env o Ho s t Ht).
Qed.

Lemma pending_completion_never_cancelled_witness :
  let s := step sample_env (StartCrossfade (Num 4)) both_loaded in
  no_Advance [SwitchDeck; Stop; Dispose] = true /\
  In {| due := 4000; targetDeck := B |} (timers (host s)) /\
  In {| due := 4000; targetDeck := B |}
     (timers (host (run sample_env [SwitchDeck; Stop; Dispose] s))).
Proof.
  cbv zeta.
  assert (Hin : In {| due := 4000; targetDeck := B |}
                   (timers (host (step sample_env (StartCrossfade (Num 4))
                                       both_loaded))))
    by (vm_compute; left; reflexivity).
  split; [reflexivity|]. split; [exact Hin|].
  apply (pending_completion_never_cancelled
           sample_env [SwitchDeck; Stop; Dispose] _ _ eq_refl Hin).
Defined.

(** ** Loading and removing visuals *)

Ltac unfold_loadVisual :=
  unfold Controller.loadVisual, Controller.new_Visual.

(** X6: however [loadVisual] fails (the import rejects, the module offers no
    constructor, the constructor throws, the controller has no container
    yet, or the visual's [init] throws), the error is logged and rethrown,
    the controller is exactly as before, so that no half-built visual is in
    the list, and no [visualLoaded] event is published. *)
Theorem loadVisual_failure_keeps_list
  (env : Env) (visualPath : string) (layer : number) (s : Sys) (e : Error) :
  outcome (Controller.loadVisual env visualPath layer) s = Throw e ->
  let s' := exec (Controller.loadVisual env visualPath layer) s in
  ctl s' = ctl s /\
  exists added,
    trace (host s') = trace (host s) ++ added /\
    filter is_visualLoaded added = [] /\
    In (ConsoleError "[DJController] Failed to load visual:" e) added.
Proof.
  open_sys s. unfold_loadVisual. unfold_js. cbn.
  destruct (import_visual env visualPath) as [m|]; cbn.
  2:{ intros H; injection H as <-. split; [reflexivity|].
      eexists. split; [rewrite <- !app_assoc; reflexivity|]. cbn. auto. }
  destruct (vm_default m) as [c|]; cbn.
  2:{ intros H; injection H as <-. split; [reflexivity|].
      eexists. split; [rewrite <- !app_assoc; reflexivity|]. cbn. auto. }
  destruct (vc_new c); cbn.
  1:{ intros H; injection H as <-. split; [reflexivity|].
      eexists. split; [rewrite <- !app_assoc; reflexivity|]. cbn. auto. }
  destruct s_box; cbn.
  2:{ intros H; injection H as <-. split; [reflexivity|].
      eexists. split; [rewrite <- !app_assoc; reflexivity|]. cbn. auto. }
  destruct (vc_init c); cbn; [|discriminate].
  intros H; injection H as <-. split; [reflexivity|].
  eexists. split; [rewrite <- !app_assoc; reflexivity|]. cbn. auto 6.
Qed.

(** X7: a [loadVisual] that returns a visual has put exactly that visual at
    the end of the list.  The visual is a new object; its canvas, another
    new object, takes the container's width and height, or the window's
    where the container reports 0, and the layer as z-index.  The canvas is
    appended, the visual initialised with it, [visualLoaded] published and
    the layer logged, printed digit by digit when it is [-Infinity] or an
    integer that JavaScript represents exactly. *)
Theorem loadVisual_appends_sized_visual
  (env : Env) (visualPath : string) (layer : number) (s s' : Sys) (v : Visual) :
  Controller.loadVisual env visualPath layer s = (s', Ok v) ->
  visuals (ctl s') = visuals (ctl s) ++ [v] /\
  visual_id v = nextObject (host s) /\
  _layer v = Some layer /\
  exists box,
    visualContainer (ctl s) = Some box /\
    _canvas v =
      Some {| canvas_id := S (nextObject (host s));
              width := number_or (clientWidth box) (innerWidth env);
              height := number_or (clientHeight box) (innerHeight env);
              zIndex := layer |} /\
    (clientWidth box = Num 0 ->
     option_map width (_canvas v) = Some (innerWidth env)) /\
    (clientHeight box = Num 0 ->
     option_map height (_canvas v) = Some (innerHeight env)) /\
    exists printed,
      trace (host s') =
        trace (host s) ++
        [ConsoleLog ("[DJController] Loading visual: " +++ visualPath);
         CanvasAppend {| canvas_id := S (nextObject (host s));
                         width := number_or (clientWidth box) (innerWidth env);
                         height := number_or (clientHeight box) (innerHeight env);
                         zIndex := layer |};
         VisualInit (visual_id v) (S (nextObject (host s)));
         BusEmit (visualLoaded (name_or (visual_name v) "unknown") layer);
         ConsoleLog ("[DJController] Visual loaded at layer " +++ printed)] /\
      (prints_plainly layer = true -> printed = number_to_string layer).
Proof.
  open_sys s. unfold_loadVisual. unfold_js. cbn.
  destruct (import_visual env visualPath) as [m|]; cbn; [|discriminate].
  destruct (vm_default m) as [c|]; cbn; [|discriminate].
  destruct (vc_new c); cbn; [discriminate|].
  destruct s_box as [box|]; cbn; [|discriminate].
  destruct (vc_init c); cbn; [discriminate|].
  intros H. injection H as <- <-. cbn.
  repeat (split; [reflexivity|]).
  exists box. split; [reflexivity|]. split; [reflexivity|].
  split; [intros ->; reflexivity|]. split; [intros ->; reflexivity|].
  exists (number_to_string layer).
  split; [rewrite <- !app_assoc; reflexivity | reflexivity].
Qed.

(** What a successful [loadVisual] leaves behind. *)
Lemma loadVisual_success_run
  (env : Env) (visualPath : string) (layer : number) (s s' : Sys) (v : Visual) :
  Controller.loadVisual env visualPath layer s = (s', Ok v) ->
  visuals (ctl s') = visuals (ctl s) ++ [v] /\
  visual_id v = nextObject (host s) /\
  option_map canvas_id (_canvas v) = Some (S (nextObject (host s))).
Proof.
  open_sys s. unfold_loadVisual. unfold_js. cbn.
  destruct (import_visual env visualPath) as [m|]; cbn; [|discriminate].
  destruct (vm_default m) as [c|]; cbn; [|discriminate].
  destruct (vc_new c); cbn; [discriminate|].
  destruct s_box as [box|]; cbn; [|discriminate].
  destruct (vc_init c); cbn; [discriminate|].
  intros H. injection H as <- <-. cbn. repeat split.
Qed.

Lemma indexOf_from_last (v : Visual) (vs : list Visual) :
  forall i, ~ In (visual_id v) (map visual_id vs) ->
            indexOf_from i (vs ++ [v]) v = i + Z.of_nat (List.length vs).
Proof.
  induction vs as [|y vs IH]; intros i Hout; cbn.
  - rewrite Nat.eqb_refl. lia.
  - destruct (Nat.eqb_spec (visual_id y) (visual_id v)) as [Heq | Hne].
    + exfalso. apply Hout. left. exact Heq.
    + rewrite IH; [lia|]. intros Hin. apply Hout. right. exact Hin.
Qed.

(** X8: in every state the controller can reach, removing the visual that a
    [loadVisual] has just returned undoes the load: the list of visuals is
    what it was before the load, the canvas that was appended is the one
    removed, and the visual's [dispose] hook is called if it has one. *)
Theorem loadVisual_then_removeVisual
  (env : Env) (ops : list Op) (visualPath : string) (layer : number)
  (s1 : Sys) (v : Visual) :
  let s := run env ops boot in
  Controller.loadVisual env visualPath layer s = (s1, Ok v) ->
  let s2 := exec (Controller.removeVisual v) s1 in
  outcome (Controller.removeVisual v) s1 = Ok tt /\
  visuals (ctl s2) = visuals (ctl s) /\
  trace (host s2) =
    trace (host s1) ++
    [CanvasRemove (S (nextObject (host s)))] ++
    (if visual_dispose v then [VisualDispose (visual_id v)] else []).
Proof.
  intros s Hload s2.
  destruct (loadVisual_success_run env visualPath layer s s1 v Hload)
    as (Hvs & Hid & Hcanvas).
  assert (Hout : ~ In (visual_id v) (map visual_id (visuals (ctl s)))).
  { intros Hin. pose proof (inv_fresh s (reachable_Inv env ops) _ Hin) as Hlt.
    rewrite Hid in Hlt. lia. }
  subst s2. unfold exec, outcome, Controller.removeVisual, indexOf.
  unfold bind, this, gets. cbn.
  rewrite Hvs, (indexOf_from_last v _ 0 Hout).
  replace (-1 <? 0 + Z.of_nat (List.length (visuals (ctl s)))) with true
    by (symmetry; apply Z.ltb_lt; lia).
  cbn [Z.add].
  change (visuals (ctl s) ++ [v]) with (visuals (ctl s) ++ v :: []).
  rewrite splice1_at, app_nil_r.
  destruct (_canvas v) as [cv|]; [|discriminate Hcanvas].
  injection Hcanvas as Hcv.
  destruct s1 as [c1 h1]. unfold_js. cbn. rewrite Hcv.
  destruct (visual_dispose v); cbn; rewrite <- ?app_assoc; repeat split.
Qed.

(** ** Starting up, playing, stopping, shutting down *)



(** X9: [init] always returns normally and leaves the controller
    initialised over a new audio graph: the chain is up with all its taps,
    the crossfade is at 0 and has no input connected.  It keeps the deck
    slots, the visuals and [activeDeck]; so a second [init] leaves the
    loaded songs in their slots but no longer connected, and puts the
    crossfade on deck A whichever deck is active. *)
Theorem init_builds_new_graph (box : Container) (s : Sys) :
  let s' := exec (Controller.init box) s in
  outcome (Controller.init box) s = Ok tt /\
  isInitialized (ctl s') = true /\
  visualContainer (ctl s') = Some box /\
  chain_ready (audioChain (ctl s')) /\
  Chain.position (audioChain (ctl s')) = Some (Num 0) /\
  (exists x, crossfade (audioChain (ctl s')) = Some x /\
             cf_a x = [] /\ cf_b x = [] /\ cf_disposed x = false) /\
  deckA (ctl s') = deckA (ctl s) /\
  deckB (ctl s') = deckB (ctl s) /\
  activeDeck (ctl s') = activeDeck (ctl s) /\
  visuals (ctl s') = visuals (ctl s) /\
  trace (host s') = trace (host s) ++ [ConsoleLog "[DJController] Initialized"].
Proof.
  open_sys s. unfold Controller.init, Chain.init, Chain.setCrossfade.
  unfold_js. cbn.
  do 3 (split; [reflexivity|]).
  split; [repeat split; discriminate|].
  split; [reflexivity|].
  split; [eexists; repeat split|].
  repeat split.
Qed.

(** The state [stopRenderLoop] leaves. *)
Lemma stopRenderLoop_run (s : Sys) :
  Controller.stopRenderLoop s = (halted s, Ok tt).
Proof.
  open_sys s. unfold halted, Controller.stopRenderLoop, cancelAnimationFrame.
  unfold_js. cbn. destruct s_aid as [h|]; [|reflexivity].
  cbn. destruct (h =? 0); reflexivity.
Qed.

Lemma halted_ctl (s : Sys) :
  audioChain (ctl (halted s)) = audioChain (ctl s) /\
  deckA (ctl (halted s)) = deckA (ctl s) /\
  deckB (ctl (halted s)) = deckB (ctl s) /\
  activeDeck (ctl (halted s)) = activeDeck (ctl s) /\
  visuals (ctl (halted s)) = visuals (ctl s) /\
  trace (host (halted s)) = trace (host s) /\
  timers (host (halted s)) = timers (host s).
Proof.
  unfold halted. destruct (animationId (ctl s)) as [h|]; [|repeat split].
  destruct (truthy (Some h)); repeat split.
Qed.






Lemma effect_run (x : Effect) (s : Sys) : effect x s = (log [x] s, Ok tt).
Proof. reflexivity. Qed.

#[local] Instance under_PreOrder (P : Sys -> Prop) : PreOrder (under P).
Proof. split; unfold under; [intros s | intros s1 s2 s3]; tauto. Qed.


Lemma halted_log (xs : list Effect) (s : Sys) :
  halted (log xs s) = log xs (halted s).
Proof.
  unfold halted. cbn. destruct (animationId (ctl s)) as [h|]; [|reflexivity].
  destruct (negb (h =? 0)); reflexivity.
Qed.

(** ** Loading songs and hearing from them *)

Ltac unfold_loadSong' :=
  unfold Controller.loadSong, Controller.loadSong_prepare,
    Controller.loadSong_install, Controller.new_Song, Controller.Song_init,
    Controller.getMasterOutput, Chain.connectToDeck.


(** X17: a [loadSong] that returns a song has connected that song's output
    to the crossfade input of its deck, after the outputs connected there
    before, none of which it disconnects; the other input and the crossfade
    position are untouched, and so is [activeDeck].  It has subscribed to
    the song's events only if the song has [on], and published [songLoaded]
    with the song's name, or ['unknown'] for a missing or empty name. *)
Theorem loadSong_connects_and_announces
  (env : Env) (songPath : string) (deck : Deck) (s s' : Sys) (new : Song) :
  Controller.loadSong env songPath deck s = (s', Ok new) ->
  (exists x x',
      crossfade (audioChain (ctl s)) = Some x /\
      crossfade (audioChain (ctl s')) = Some x' /\
      cf_a x' = cf_a x ++ (match deck with A => [song_id new] | B => [] end) /\
      cf_b x' = cf_b x ++ (match deck with A => [] | B => [song_id new] end) /\
      fade x' = fade x) /\
  activeDeck (ctl s') = activeDeck (ctl s) /\
  trace (host s') =
    trace (host s) ++
    [ConsoleLog ("[DJController] Loading song into Deck " +++
                 Deck_name deck +++ ": " +++ songPath);
     SongInit (song_id new)] ++
    song_call SongDispose (deck_slot deck (ctl s)) ++
    (if song_on new
     then [SongSubscribe (song_id new) OnSectionChange;
           SongSubscribe (song_id new) OnBar]
     else []) ++
    [BusEmit (songLoaded deck (name_or (song_name new) "unknown"));
     ConsoleLog ("[DJController] Song loaded into Deck " +++ Deck_name deck)].
Proof.
  open_sys s. unfold_loadSong'. unfold_js. cbn.
  destruct (import_song env songPath) as [m|]; cbn; [|discriminate].
  destruct (sm_default m) as [c|]; cbn; [|discriminate].
  destruct (sc_new c); cbn; [discriminate|].
  destruct (sc_init c); cbn; [discriminate|].
  destruct s_cf as [x|].
  2:{ destruct deck, s_dA, s_dB; cbn; discriminate. }
  destruct deck, s_dA, s_dB; cbn; destruct (sc_on c) eqn:Hon; cbn;
    intros H; injection H as <- <-; cbn;
    (split; [do 2 eexists; repeat split; cbn; now rewrite ?app_nil_r|]);
    (split; [reflexivity|]);
    rewrite <- ?app_assoc; reflexivity.
Qed.


(** ** Crossfades in both directions *)

(** One crossfade, from its start to its completion, with nothing else
    happening in between. *)
Lemma crossfade_cycle (d : Z) (s : Sys) (x : CrossFade) (incoming : Song) :
  0 <= d ->
  crossfade (audioChain (ctl s)) = Some x ->
  deck_slot (opposite (activeDeck (ctl s))) (ctl s) = Some incoming ->
  timers (host s) = [] ->
  let s1 := exec (Controller.startCrossfade (Num d)) s in
  let s2 := exec (advance (now (host s) + d * 1000)) s1 in
  activeDeck (ctl s2) = opposite (activeDeck (ctl s)) /\
  Chain.position (audioChain (ctl s2)) =
    Some (extreme (opposite (activeDeck (ctl s)))) /\
  (exists x', crossfade (audioChain (ctl s2)) = Some x') /\
  deckA (ctl s2) = deckA (ctl s) /\
  deckB (ctl s2) = deckB (ctl s) /\
  timers (host s2) = [] /\
  now (host s2) = now (host s) + d * 1000 /\
  trace (host s2) =
    trace (host s) ++
    [BusEmit (crossfadeStart (activeDeck (ctl s))
                             (opposite (activeDeck (ctl s))) (Num d));
     SongPlay (song_id incoming)] ++
    song_call SongStop (deck_slot (activeDeck (ctl s)) (ctl s)) ++
    [BusEmit (crossfadeComplete (opposite (activeDeck (ctl s))))].
Proof.
  intros Hd Hcf Hin Hidle. open_sys s. subst.
  pose proof (delay_ms_bounds d Hd) as Hdelay.
  unfold_crossfade. unfold_js.
  destruct s_act; cbn in Hin; subst; cbn;
    destruct (0 <? d); cbn;
    (destruct (Z.leb_spec (s_now + delay_ms (Num (d * 1000)))
                          (s_now + d * 1000)); [|lia]); cbn.
  all: try destruct s_dA; try destruct s_dB; cbn.
  all: rewrite <- ?app_assoc; cbn.
  all: repeat split; try lia; eexists; reflexivity.
Qed.

(** X19: with a song in each deck, the audio chain initialised and no fade
    in flight, two crossfades run one after the other bring [activeDeck]
    back to the deck it started from and leave the crossfade at the extreme
    of that deck, 0 for A and 1 for B; that is the position before the
    first crossfade exactly when the crossfade was then on the active deck's
    side.  No timer is left, and each song has been started once and stopped
    once. *)
Theorem two_crossfades_return_to_start
  (d1 d2 : Z) (s : Sys) (x : CrossFade) (a b : Song) :
  0 <= d1 -> 0 <= d2 ->
  crossfade (audioChain (ctl s)) = Some x ->
  deck_slot (activeDeck (ctl s)) (ctl s) = Some a ->
  deck_slot (opposite (activeDeck (ctl s))) (ctl s) = Some b ->
  timers (host s) = [] ->
  let t1 := now (host s) + d1 * 1000 in
  let s2 := exec (advance t1) (exec (Controller.startCrossfade (Num d1)) s) in
  let s4 := exec (advance (t1 + d2 * 1000))
                 (exec (Controller.startCrossfade (Num d2)) s2) in
  activeDeck (ctl s2) = opposite (activeDeck (ctl s)) /\
  Chain.position (audioChain (ctl s2)) =
    Some (extreme (opposite (activeDeck (ctl s)))) /\
  activeDeck (ctl s4) = activeDeck (ctl s) /\
  Chain.position (audioChain (ctl s4)) = Some (extreme (activeDeck (ctl s))) /\
  (Chain.position (audioChain (ctl s)) = Some (extreme (activeDeck (ctl s))) <->
   Chain.position (audioChain (ctl s4)) = Chain.position (audioChain (ctl s))) /\
  timers (host s4) = [] /\
  trace (host s4) =
    trace (host s) ++
    [BusEmit (crossfadeStart (activeDeck (ctl s))
                             (opposite (activeDeck (ctl s))) (Num d1));
     SongPlay (song_id b);
     SongStop (song_id a);
     BusEmit (crossfadeComplete (opposite (activeDeck (ctl s))));
     BusEmit (crossfadeStart (opposite (activeDeck (ctl s)))
                             (activeDeck (ctl s)) (Num d2));
     SongPlay (song_id a);
     SongStop (song_id b);
     BusEmit (crossfadeComplete (activeDeck (ctl s)))].
Proof.
  intros Hd1 Hd2 Hcf Ha Hb Hidle. cbv zeta.
  pose proof (crossfade_cycle d1 s x b Hd1 Hcf Hb Hidle) as H2.
  cbv zeta in H2.
  remember (exec (advance (now (host s) + d1 * 1000))
                 (exec (Controller.startCrossfade (Num d1)) s)) as s2 eqn:E2.
  destruct H2 as (Hact2 & Hpos2 & (x2 & Hcf2) & HA2 & HB2 & Hts2 & Hnow2 & Htr2).
  assert (Hopp : opposite (opposite (activeDeck (ctl s))) = activeDeck (ctl s))
    by (destruct (activeDeck (ctl s)); reflexivity).
  assert (Hslot : forall d, deck_slot d (ctl s2) = deck_slot d (ctl s))
    by (intros []; cbn; assumption).
  assert (Hin2 : deck_slot (opposite (activeDeck (ctl s2))) (ctl s2) = Some a)
    by (rewrite Hact2, Hopp, Hslot; exact Ha).
  pose proof (crossfade_cycle d2 s2 x2 a Hd2 Hcf2 Hin2 Hts2) as H4.
  cbv zeta in H4. rewrite Hnow2 in H4.
  destruct H4 as (Hact4 & Hpos4 & _ & _ & _ & Hts4 & _ & Htr4).
  rewrite Hact2, Hopp in Hact4, Hpos4.
  split; [exact Hact2|]. split; [exact Hpos2|].
  split; [exact Hact4|]. split; [exact Hpos4|].
  split; [rewrite Hpos4; split; congruence|].
  split; [exact Hts4|].
  rewrite Htr4, Htr2, Hact2, Hopp, !Hslot, Ha, Hb. cbn.
  rewrite <- !app_assoc. reflexivity.
Qed.



(** ** Switching decks *)

(** X22: on an initialised audio chain two [switchDeck] calls in a row give
    back the active deck and leave the crossfade at the extreme of that
    deck; each publishes its [deckSwitch].  No timer is involved. *)
Theorem switchDeck_twice_returns
  (s : Sys) (x : CrossFade) :
  crossfade (audioChain (ctl s)) = Some x ->
  let s2 := exec Controller.switchDeck (exec Controller.switchDeck s) in
  activeDeck (ctl s2) = activeDeck (ctl s) /\
  Chain.position (audioChain (ctl s2)) = Some (extreme (activeDeck (ctl s))) /\
  timers (host s2) = timers (host s) /\
  trace (host s2) =
    trace (host s) ++
    [BusEmit (deckSwitch (opposite (activeDeck (ctl s))));
     BusEmit (deckSwitch (activeDeck (ctl s)))].
Proof.
  intros Hcf. open_sys s. subst.
  unfold Controller.switchDeck, Chain.setCrossfade. unfold_js. cbn.
  destruct s_act; cbn; rewrite <- ?app_assoc; repeat split.
Qed.

(** X23: if [switchDeck] is called while a crossfade is in flight, the
    completion of the fade still runs at its time.  It finds the incoming
    deck already active, so the song it stops is the incoming one, the song
    of the deck that is and stays active; the outgoing song is never
    stopped. *)
Theorem switchDeck_during_crossfade_stops_incoming_song
  (d : Z) (s : Sys) (x : CrossFade) (incoming : Song) :
  0 <= d ->
  crossfade (audioChain (ctl s)) = Some x ->
  deck_slot (opposite (activeDeck (ctl s))) (ctl s) = Some incoming ->
  timers (host s) = [] ->
  let s1 := exec Controller.switchDeck
                 (exec (Controller.startCrossfade (Num d)) s) in
  let s2 := exec (advance (now (host s) + d * 1000)) s1 in
  activeDeck (ctl s1) = opposite (activeDeck (ctl s)) /\
  activeDeck (ctl s2) = opposite (activeDeck (ctl s)) /\
  deck_slot (activeDeck (ctl s2)) (ctl s2) = Some incoming /\
  trace (host s2) =
    trace (host s) ++
    [BusEmit (crossfadeStart (activeDeck (ctl s))
                             (opposite (activeDeck (ctl s))) (Num d));
     SongPlay (song_id incoming);
     BusEmit (deckSwitch (opposite (activeDeck (ctl s))));
     SongStop (song_id incoming);
     BusEmit (crossfadeComplete (opposite (activeDeck (ctl s))))].
Proof.
  intros Hd Hcf Hin Hidle. open_sys s. subst.
  pose proof (delay_ms_bounds d Hd) as Hdelay.
  unfold_crossfade. unfold Controller.switchDeck, Chain.setCrossfade.
  unfold_js.
  destruct s_act; cbn in Hin; subst; cbn;
    destruct (0 <? d); cbn;
    (destruct (Z.leb_spec (s_now + delay_ms (Num (d * 1000)))
                          (s_now + d * 1000)); [|lia]); cbn.
  all: rewrite <- ?app_assoc; cbn; repeat split.
Qed.

(** ** Commands to the active song and the state report *)





(** ** The audio chain on its own *)

Lemma chain_step_before_init (o : ChainOp) :
  is_CInit o = false -> chain_step o Chain.constructor = Chain.constructor.
Proof. destruct o; try discriminate; reflexivity. Qed.

(** X26: until [init] is called nothing changes an audio chain: on a new
    chain [connectToDeck], [setCrossfade] and [setMasterVolume] throw a
    [TypeError], and any sequence of calls other than [init], the throwing
    ones, [getAudioData] and [dispose] included, leaves the chain as
    constructed. *)
Theorem chain_unchanged_before_init
  (ops : list ChainOp) (src : nat) (d : Deck) (v t db : number) :
  no_CInit ops = true ->
  chain_run ops Chain.constructor = Chain.constructor /\
  Chain.connectToDeck src d Chain.constructor =
    (Chain.constructor,
     Throw (TypeError ("Cannot read properties of null: " +++
                       match d with A => "a" | B => "b" end))) /\
  Chain.setCrossfade v t Chain.constructor =
    (Chain.constructor, Throw (TypeError "Cannot read properties of null: fade")) /\
  Chain.setMasterVolume db Chain.constructor =
    (Chain.constructor, Throw (TypeError "Cannot read properties of null: volume")).
Proof.
  intros Hops. split; [|repeat split].
  induction ops as [|o ops IH]; [reflexivity|].
  cbn in Hops. apply andb_true_iff in Hops as [Ho Hops].
  apply negb_true_iff in Ho.
  unfold chain_run. cbn [fold_left]. rewrite (chain_step_before_init o Ho).
  apply IH, Hops.
Qed.

Lemma chain_step_nodes (o : ChainOp) (c : AudioChain) :
  nodes_exist c -> nodes_exist (chain_step o c).
Proof.
  intros [Hcf Hms]. destruct o; cbn [chain_step].
  - split; discriminate.
  - unfold exec. now rewrite getAudioData_pure.
  - rewrite connectToDeck_state. destruct (crossfade c); [|tauto].
    split; [discriminate | exact Hms].
  - rewrite setCrossfade_state. destruct (crossfade c) eqn:Hx; [|tauto].
    destruct (in_unit_interval value).
    + split; [discriminate | exact Hms].
    + split; [rewrite Hx; discriminate | exact Hms].
  - unfold exec, Chain.setMasterVolume, bind, gets, modify. cbn.
    destruct (master c); [|tauto]. cbn. split; [exact Hcf | discriminate].
  - unfold exec, Chain.dispose, modify, nodes_exist. cbn.
    destruct (crossfade c), (master c); try tauto. split; discriminate.
Qed.

(** X27: once [init] has run the chain's node fields are never null again,
    whatever was called in between: [dispose] lowers the flag but keeps the
    fields.  So the routing methods never fail on a missing node afterwards.
    [connectToDeck] returns normally, and so does [setMasterVolume] for a
    volume of at most 0 dB; [setCrossfade] returns normally and sets the
    position for a value inside [0, 1], also right after [dispose], and for
    any other value fails with the engine's [RangeError] and nothing
    else. *)
Theorem routing_never_throws_after_init
  (ops : list ChainOp) (c : AudioChain) (src : nat) (d : Deck) (v t db : number) :
  let c' := chain_run ops (exec Chain.init c) in
  nodes_exist c' /\
  outcome (Chain.connectToDeck src d) c' = Ok tt /\
  (gt0 db = false -> outcome (Chain.setMasterVolume db) c' = Ok tt) /\
  outcome (Chain.setCrossfade v t) c' =
    (if in_unit_interval v then Ok tt else Throw out_of_range) /\
  (in_unit_interval v = true ->
   Chain.position (exec (Chain.setCrossfade v t) c') = Some v /\
   Chain.position (exec (Chain.setCrossfade v t) (exec Chain.dispose c')) =
     Some v).
Proof.
  intros c'.
  assert (Hn : nodes_exist c').
  { subst c'.
    assert (H0 : nodes_exist (exec Chain.init c)) by (split; discriminate).
    revert H0. generalize (exec Chain.init c).
    induction ops as [|o ops IH]; intros c0 H0; [exact H0|].
    unfold chain_run. cbn [fold_left]. apply IH, chain_step_nodes, H0. }
  split; [exact Hn|].
  destruct Hn as [Hcf Hms].
  destruct (crossfade c') as [x|] eqn:Ecf; [|tauto].
  destruct (master c') as [ms|] eqn:Ems; [|tauto].
  split; [|split; [|split]].
  - unfold outcome, Chain.connectToDeck, bind, gets, modify. cbn.
    now rewrite Ecf.
  - intros _. unfold outcome, Chain.setMasterVolume, bind, gets, modify. cbn.
    now rewrite Ems.
  - unfold outcome, Chain.setCrossfade, normalRange_rampTo,
      normalRange_assign, settle, bind, gets, modify, ret, throw.
    rewrite Ecf. destruct (gt0 t), (in_unit_interval v); reflexivity.
  - intros Hv. rewrite !setCrossfade_state.
    unfold exec, Chain.dispose, modify. cbn.
    rewrite Ecf, Hv. unfold Chain.position. cbn.
    destruct (gt0 t); split; reflexivity.
Qed.

(** X28: [dispose] on the audio chain returns normally, lowers
    [isInitialized] and disposes of every node the chain holds; it sets no
    field to null, so a field holds a node afterwards exactly when it did
    before.  The crossfade keeps its position and its connected inputs.  A
    second [dispose], which disposes of the same nodes again, leaves every
    field and node as the first left it. *)
Theorem chain_dispose_idempotent (c : AudioChain) :
  let c' := exec Chain.dispose c in
  outcome Chain.dispose c = Ok tt /\
  ac_isInitialized c' = false /\
  option_map cf_disposed (crossfade c') =
    option_map (fun _ => true) (crossfade c) /\
  option_map an_disposed (analyser c') =
    option_map (fun _ => true) (analyser c) /\
  option_map an_disposed (waveformAnalyser c') =
    option_map (fun _ => true) (waveformAnalyser c) /\
  option_map mt_disposed (meter c') = option_map (fun _ => true) (meter c) /\
  option_map vol_disposed (master c') = option_map (fun _ => true) (master c) /\
  exec Chain.dispose c' = c' /\
  Chain.position c' = Chain.position c /\
  option_map cf_a (crossfade c') = option_map cf_a (crossfade c) /\
  option_map cf_b (crossfade c') = option_map cf_b (crossfade c).
Proof.
  destruct c as [cf an wf mt ms up].
  unfold exec, outcome, Chain.dispose, modify, Chain.position. cbn.
  destruct cf, an, wf, mt, ms; repeat split.
Qed.

(** ** The further properties on the sample inputs *)

Lemma loadVisual_failure_keeps_list_witness :
  outcome (Controller.loadVisual sample_env "visuals/missing.js" (Num 0))
          initialised = Throw (PluginError "Cannot find module") /\
  ctl (exec (Controller.loadVisual sample_env "visuals/missing.js" (Num 0))
            initialised) = ctl initialised.
Proof.
  assert (H1 : outcome (Controller.loadVisual sample_env "visuals/missing.js"
                                              (Num 0)) initialised =
               Throw (PluginError "Cannot find module"))
    by (vm_compute; reflexivity).
  split; [exact H1|].
  exact (proj1 (loadVisual_failure_keeps_list
                  sample_env "visuals/missing.js" (Num 0) initialised _ H1)).
Defined.

Lemma loadVisual_appends_sized_visual_witness :
  let s' := exec (Controller.loadVisual sample_env "visuals/bars.js" (Num 0))
                 initialised in
  Controller.loadVisual sample_env "visuals/bars.js" (Num 0) initialised =
    (s', Ok bars) /\
  visuals (ctl s') = visuals (ctl initialised) ++ [bars].
Proof.
  cbv zeta.
  assert (H1 : Controller.loadVisual sample_env "visuals/bars.js" (Num 0)
                 initialised =
               (exec (Controller.loadVisual sample_env "visuals/bars.js" (Num 0))
                     initialised, Ok bars))
    by (vm_compute; reflexivity).
  split; [exact H1|].
  exact (proj1 (loadVisual_appends_sized_visual
                  sample_env "visuals/bars.js" (Num 0) initialised _ bars H1)).
Defined.

Lemma loadVisual_then_removeVisual_witness :
  let s := run sample_env [Init sample_box] boot in
  let s1 := exec (Controller.loadVisual sample_env "visuals/bars.js" (Num 0)) s in
  Controller.loadVisual sample_env "visuals/bars.js" (Num 0) s = (s1, Ok bars) /\
  visuals (ctl (exec (Controller.removeVisual bars) s1)) = visuals (ctl s).
Proof.
  cbv zeta.
  assert (H1 : Controller.loadVisual sample_env "visuals/bars.js" (Num 0)
                 (run sample_env [Init sample_box] boot) =
               (exec (Controller.loadVisual sample_env "visuals/bars.js" (Num 0))
                     (run sample_env [Init sample_box] boot), Ok bars))
    by (vm_compute; reflexivity).
  split; [exact H1|].
  destruct (loadVisual_then_removeVisual
              sample_env [Init sample_box] "visuals/bars.js" (Num 0) _ bars H1)
    as (_ & Hvs & _).
  exact Hvs.
Defined.



Lemma loadSong_connects_and_announces_witness :
  let s' := exec (Controller.loadSong sample_env "songs/night.js" A)
                 both_loaded in
  Controller.loadSong sample_env "songs/night.js" A both_loaded =
    (s', Ok night_again) /\
  activeDeck (ctl s') = activeDeck (ctl both_loaded) /\
  option_map cf_a (crossfade (audioChain (ctl s'))) = Some [0%nat; 2%nat].
Proof.
  cbv zeta.
  assert (H1 : Controller.loadSong sample_env "songs/night.js" A both_loaded =
               (exec (Controller.loadSong sample_env "songs/night.js" A)
                     both_loaded, Ok night_again))
    by (vm_compute; reflexivity).
  destruct (loadSong_connects_and_announces
              sample_env "songs/night.js" A both_loaded _ night_again H1)
    as (_ & Hact & _).
  split; [exact H1|]. split; [exact Hact|]. vm_compute. reflexivity.
Defined.

Lemma two_crossfades_return_to_start_witness :
  0 <= 4 /\ 0 <= 2 /\
  deck_slot (activeDeck (ctl both_loaded)) (ctl both_loaded) = Some demo /\
  deck_slot (opposite (activeDeck (ctl both_loaded))) (ctl both_loaded) =
    Some night /\
  timers (host both_loaded) = [] /\
  activeDeck
    (ctl (exec (advance (now (host both_loaded) + 4 * 1000 + 2 * 1000))
            (exec (Controller.startCrossfade (Num 2))
               (exec (advance (now (host both_loaded) + 4 * 1000))
                  (exec (Controller.startCrossfade (Num 4)) both_loaded))))) =
  activeDeck (ctl both_loaded).
Proof.
  assert (H1 : 0 <= 4) by lia.
  assert (H2 : 0 <= 2) by lia.
  assert (Hcf : exists x, crossfade (audioChain (ctl both_loaded)) = Some x)
    by (vm_compute; eexists; reflexivity).
  destruct Hcf as [x Hcf].
  assert (Ha : deck_slot (activeDeck (ctl both_loaded)) (ctl both_loaded) =
               Some demo) by (vm_compute; reflexivity).
  assert (Hb : deck_slot (opposite (activeDeck (ctl both_loaded)))
                         (ctl both_loaded) = Some night)
    by (vm_compute; reflexivity).
  assert (Hidle : timers (host both_loaded) = []) by (vm_compute; reflexivity).
  destruct (two_crossfades_return_to_start
              4 2 both_loaded x demo night H1 H2 Hcf Ha Hb Hidle)
    as (_ & _ & Hback & _).
  split; [exact H1|]. split; [exact H2|]. split; [exact Ha|].
  split; [exact Hb|]. split; [exact Hidle | exact Hback].
Defined.



Lemma switchDeck_twice_returns_witness :
  (exists x, crossfade (audioChain (ctl both_loaded)) = Some x) /\
  activeDeck (ctl (exec Controller.switchDeck
                        (exec Controller.switchDeck both_loaded))) =
    activeDeck (ctl both_loaded).
Proof.
  assert (Hcf : exists x, crossfade (audioChain (ctl both_loaded)) = Some x)
    by (vm_compute; eexists; reflexivity).
  split; [exact Hcf|]. destruct Hcf as [x Hcf].
  exact (proj1 (switchDeck_twice_returns both_loaded x Hcf)).
Defined.

Lemma switchDeck_during_crossfade_stops_incoming_song_witness :
  0 <= 4 /\
  deck_slot (opposite (activeDeck (ctl both_loaded))) (ctl both_loaded) =
    Some night /\
  timers (host both_loaded) = [] /\
  trace (host (exec (advance (now (host both_loaded) + 4 * 1000))
                 (exec Controller.switchDeck
                    (exec (Controller.startCrossfade (Num 4)) both_loaded)))) =
    trace (host both_loaded) ++
    [BusEmit (crossfadeStart (activeDeck (ctl both_loaded))
                (opposite (activeDeck (ctl both_loaded))) (Num 4));
     SongPlay (song_id night);
     BusEmit (deckSwitch (opposite (activeDeck (ctl both_loaded))));
     SongStop (song_id night);
     BusEmit (crossfadeComplete (opposite (activeDeck (ctl both_loaded))))].
Proof.
  assert (H1 : 0 <= 4) by lia.
  assert (Hcf : exists x, crossfade (audioChain (ctl both_loaded)) = Some x)
    by (vm_compute; eexists; reflexivity).
  destruct Hcf as [x Hcf].
  assert (Hb : deck_slot (opposite (activeDeck (ctl both_loaded)))
                         (ctl both_loaded) = Some night)
    by (vm_compute; reflexivity).
  assert (Hidle : timers (host both_loaded) = []) by (vm_compute; reflexivity).
  destruct (switchDeck_during_crossfade_stops_incoming_song
              4 both_loaded x night H1 Hcf Hb Hidle)
    as (_ & _ & _ & Htr).
  split; [exact H1|]. split; [exact Hb|]. split; [exact Hidle | exact Htr].
Defined.



Lemma chain_unchanged_before_init_witness :
  no_CInit [CSetCrossfade (Num 1) (Num 0); CDispose;
            CConnectToDeck 0 A; CSetMasterVolume (Num (-6))] = true /\
  chain_run [CSetCrossfade (Num 1) (Num 0); CDispose;
             CConnectToDeck 0 A; CSetMasterVolume (Num (-6))]
            Chain.constructor = Chain.constructor.
Proof.
  split; [reflexivity|].
  exact (proj1 (chain_unchanged_before_init
                  [CSetCrossfade (Num 1) (Num 0); CDispose;
                   CConnectToDeck 0 A; CSetMasterVolume (Num (-6))]
                  0%nat A (Num 1) (Num 0) (Num 0) eq_refl)).
Defined.

(** * Calls that fail *)

(** ** Sequences of calls *)

Lemma call_run (p : Plugins) (e : Effect) (s : Sys) :
  call p e s = (log [e] s, ended (p e)).
Proof. unfold call, bind. rewrite effect_run. destruct (p e); reflexivity. Qed.

Lemma attempt_all (p : Plugins) (es : list Effect) :
  Forall (fun c => p c = None) es -> attempt p es = (es, None).
Proof.
  induction 1 as [|c es Hc _ IH]; [reflexivity|].
  cbn. now rewrite Hc, IH.
Qed.

Lemma attempt_first (p : Plugins) (before after : list Effect)
  (c : Effect) (err : Error) :
  Forall (fun c => p c = None) before ->
  p c = Some err ->
  attempt p (before ++ c :: after) = (before ++ [c], Some err).
Proof.
  intros Hbefore Hc. induction Hbefore as [|b before Hb _ IH]; cbn.
  - now rewrite Hc.
  - now rewrite Hb, IH.
Qed.

Lemma attempt_returned (p : Plugins) (es : list Effect) :
  snd (attempt p es) = None -> fst (attempt p es) = es.
Proof.
  induction es as [|c es IH]; [reflexivity|]. cbn.
  destruct (p c); [discriminate|].
  destruct (attempt p es) as [made r]. cbn in *. intros Hr. now rewrite IH.
Qed.

Lemma forEach_call {X} (p : Plugins) (g : X -> Effect) (xs : list X) :
  forall s,
    forEach xs (fun x => call p (g x)) s =
    (log (fst (attempt p (map g xs))) s, ended (snd (attempt p (map g xs)))).
Proof.
  induction xs as [|x xs IH]; intros s; cbn.
  - unfold ret. now rewrite log_nil.
  - unfold bind. rewrite call_run. destruct (p (g x)); cbn; [reflexivity|].
    rewrite IH, log_log. destruct (attempt p (map g xs)). reflexivity.
Qed.

(** One tick on a chain whose flag is only up over existing nodes: it goes
    as far as the first [render] that throws. *)
Lemma render_fallible_run (p : Plugins) (e : Engine)
  (tr : nat -> TransportState) (s : Sys) :
  chain_sound (audioChain (ctl s)) ->
  Fallible.render p e tr s =
    match snd (attempt p (renders e tr s)) with
    | None => Controller.render e tr s
    | Some err => (log (fst (attempt p (renders e tr s))) s, Throw err)
    end.
Proof.
  intros Hc. rewrite render_run by exact Hc.
  unfold Fallible.render, bind.
  rewrite (chain_getAudioData_sound e s Hc).
  unfold this, gets. cbn.
  rewrite (forEach_call p
    (fun v => VisualRender (visual_id v) (audioData_of e (audioChain (ctl s)))
                (songState_of tr (ctl s)))).
  fold (renders e tr s).
  pose proof (attempt_returned p (renders e tr s)) as Hall.
  destruct (attempt p (renders e tr s)) as [made [err|]]; cbn in *;
    [reflexivity|].
  rewrite Hall by reflexivity. reflexivity.
Qed.

Lemma startRenderLoop_fallible_run (p : Plugins) (e : Engine)
  (tr : nat -> TransportState) (s : Sys) :
  Fallible.startRenderLoop p e tr s =
    if truthy (animationId (ctl s)) then (s, Ok tt)
    else Fallible.render p e tr s.
Proof.
  unfold Fallible.startRenderLoop, bind, this, gets. cbn.
  destruct (truthy (animationId (ctl s))); reflexivity.
Qed.

(** ** The invariant under failing calls *)

Lemma boot_Sound (b : bool) : Sound b boot.
Proof.
  split; [apply constructor_sound|]. split.
  - constructor; cbn; [lia | discriminate | now left].
  - intros _ h Hh. discriminate Hh.
Qed.

(** A state change that the invariant does not look at. *)
Lemma Sound_unseen (b : bool) (g : Sys -> Sys) :
  (forall s, loop_view (g s) = loop_view s) ->
  (forall s, audioChain (ctl (g s)) = audioChain (ctl s)) ->
  forall s, under (Sound b) s (g s).
Proof.
  intros Hv Ha s (Hc & [H1 H2 H3] & Hl).
  pose proof (Hv s) as Hview. unfold loop_view in Hview.
  injection Hview as Hfc Hid Hfr.
  split; [now rewrite Ha|]. split.
  - constructor; rewrite ?Hfc, ?Hid, ?Hfr; assumption.
  - intros Hb h Hh. rewrite Hfr. apply (Hl Hb). congruence.
Qed.

(** A call of one of the chain's methods. *)
Lemma Sound_chain (b : bool) {X} (m : M AudioChain X) (o : ChainOp) :
  (forall c, fst (m c) = chain_step o c) ->
  moves (under (Sound b)) (chain m).
Proof.
  intros Hm s (Hc & [H1 H2 H3] & Hl). unfold chain, zoom.
  specialize (Hm (audioChain (ctl s))).
  destruct (m (audioChain (ctl s))) as [c r]. cbn in *. subst c.
  split; [apply (chain_step_sound o), Hc|].
  split; [constructor; assumption | exact Hl].
Qed.

Lemma Sound_render_idle (b : bool) (p : Plugins) (e : Engine)
  (tr : nat -> TransportState) (s : Sys) :
  (b = true -> renders_return p) ->
  Sound b s -> frames (host s) = [] ->
  Sound b (fst (Fallible.render p e tr s)).
Proof.
  intros Hp (Hc & [H1 H2 H3] & Hl) Hidle.
  rewrite render_fallible_run by exact Hc.
  destruct (snd (attempt p (renders e tr s))) as [err|] eqn:Hend.
  - cbn. split; [exact Hc|]. split; [constructor; assumption|].
    intros Hb. exfalso.
    rewrite attempt_all in Hend; [discriminate|].
    apply Forall_forall. intros c Hin. unfold renders in Hin.
    apply in_map_iff in Hin as (v & <- & _). apply (Hp Hb).
  - rewrite render_run by exact Hc. cbn [fst].
    split; [exact Hc|]. split.
    + constructor; cbn; rewrite ?Hidle; cbn;
        [lia | | right; eexists; split; reflexivity].
      intros h Hh. injection Hh as <-. lia.
    + intros _ h Hh. cbn in *. rewrite Hidle. injection Hh as <-. reflexivity.
Qed.

Lemma Loop_idle (s : Sys) :
  Loop s -> truthy (animationId (ctl s)) = false -> frames (host s) = [].
Proof.
  intros [H1 H2 H3] Hrun.
  destruct H3 as [Hnone | (h & _ & Hid)]; [exact Hnone|].
  pose proof (H2 h Hid) as Hpos. rewrite Hid in Hrun. cbn in Hrun.
  destruct (Z.eqb_spec h 0); [lia | discriminate].
Qed.

Lemma Sound_startRenderLoop (b : bool) (p : Plugins) (e : Engine)
  (tr : nat -> TransportState) :
  (b = true -> renders_return p) ->
  moves (under (Sound b)) (Fallible.startRenderLoop p e tr).
Proof.
  intros Hp s Hs. rewrite startRenderLoop_fallible_run.
  destruct (truthy (animationId (ctl s))) eqn:Hrun; [exact Hs|].
  apply Sound_render_idle; [exact Hp | exact Hs|].
  apply Loop_idle; [apply Hs | exact Hrun].
Qed.

Lemma Sound_stopRenderLoop (b : bool) :
  moves (under (Sound b)) Controller.stopRenderLoop.
Proof.
  intros s (Hc & [H1 H2 H3] & Hl). rewrite stopRenderLoop_run. cbn [fst].
  split; [now rewrite (proj1 (halted_ctl s))|].
  unfold halted, loop_consistent in *.
  destruct (animationId (ctl s)) as [h|] eqn:Hid;
    [|split; [constructor; rewrite ?Hid; assumption | rewrite Hid; exact Hl]].
  cbn [truthy]. destruct (Z.eqb_spec h 0) as [-> | Hnz]; cbn [negb].
  - split; [constructor; rewrite ?Hid; assumption | rewrite Hid; exact Hl].
  - split.
    + constructor; cbn; [assumption | discriminate | left].
      destruct H3 as [-> | (h' & -> & Hh')]; [reflexivity|].
      injection Hh' as <-. cbn. now rewrite Z.eqb_refl.
    + intros _ h' Hh'. discriminate Hh'.
Qed.

Lemma Sound_frame (b : bool) (p : Plugins) (e : Engine)
  (tr : nat -> TransportState) :
  (b = true -> renders_return p) ->
  moves (under (Sound b)) (Fallible.frame p e tr).
Proof.
  intros Hp s Hs. pose proof Hs as (Hc & [H1 H2 H3] & Hl).
  set (s0 := on_host (fun h => with_frames (frameCounter h) [] h) s).
  unfold Fallible.frame, bind, gets, modify. cbn. fold s0.
  destruct H3 as [Hnone | (h & Hone & Hid)].
  - rewrite Hnone. cbn.
    replace s0 with s; [exact Hs|].
    subst s0. destruct s as [c host0]. destruct host0. cbn in *. now subst.
  - rewrite Hone. cbn [forEach]. unfold bind, try_catch.
    assert (Hc0 : chain_sound (audioChain (ctl s0))) by exact Hc.
    rewrite render_fallible_run by exact Hc0.
    change (renders e tr s0) with (renders e tr s).
    destruct (snd (attempt p (renders e tr s))) as [err|] eqn:Hend.
    + cbn. split; [exact Hc|]. split.
      * constructor; cbn; [assumption | assumption | now left].
      * intros Hb. exfalso.
        rewrite attempt_all in Hend; [discriminate|].
        apply Forall_forall. intros c Hin. unfold renders in Hin.
        apply in_map_iff in Hin as (v & <- & _). apply (Hp Hb).
    + rewrite render_run by exact Hc0. cbn.
      split; [exact Hc|]. split.
      * constructor; cbn; [lia | | right; eexists; split; reflexivity].
        intros h' Hh'. injection Hh' as <-. lia.
      * intros _ h' Hh'. cbn in *. injection Hh' as <-. reflexivity.
Qed.

Ltac Sound_chain_method b :=
  match goal with
  | |- moves _ (chain Chain.init) => apply (Sound_chain b _ CInit)
  | |- moves _ (chain Chain.dispose) => apply (Sound_chain b _ CDispose)
  | |- moves _ (chain (Chain.getAudioData ?e)) =>
    apply (Sound_chain b _ (CGetAudioData e))
  | |- moves _ (chain (Chain.connectToDeck ?x ?d)) =>
    apply (Sound_chain b _ (CConnectToDeck x d))
  | |- moves _ (chain (Chain.setCrossfade ?v ?t)) =>
    apply (Sound_chain b _ (CSetCrossfade v t))
  end; intros ?; reflexivity.

Ltac Sound_leaf b :=
  first [ apply Sound_startRenderLoop; assumption
        | apply Sound_stopRenderLoop
        | apply Sound_frame; assumption
        | Sound_chain_method b
        | apply Sound_unseen; intros ?; reflexivity ].

(** The operations, so that a method unfolds to [bind], [gets], [modify]
    and the calls on the chain; the render loop stays folded. *)
Ltac unfold_fallible :=
  unfold Fallible.loadSong, Fallible.loadSong_prepare,
    Fallible.loadSong_install, Fallible.on_sectionChange,
    Fallible.removeVisual, Fallible.play, Fallible.play_engine,
    Fallible.play_song, Fallible.play_loop, Fallible.pause, Fallible.stop,
    Fallible.startCrossfade, Fallible.startCrossfade_begin,
    Fallible.dispose, Fallible.advance, Fallible.completion,
    Controller.init, Controller.new_Song, Controller.Song_init,
    Controller.on_bar, Controller.loadVisual, Controller.new_Visual,
    Controller.startCrossfade_resume, Controller.switchDeck,
    setTimeout, call, bus_emit, this, assign, effect, fresh, when_.

Lemma turn_Sound (b : bool) (env : Env) (pt : Plugins * Fallible.Turn) :
  (b = true -> renders_return (fst pt)) ->
  forall s, under (Sound b) s (Fallible.turn env pt s).
Proof.
  destruct pt as [p t]. cbn [fst]. intros Hp.
  destruct t as [o| | |e tr|d|k]; [destruct o|..];
    cbn [Fallible.turn Fallible.step]; unfold exec;
    match goal with
    | |- forall s, _ s (fst (?m s)) => change (moves (under (Sound b)) m)
    end;
    unfold_fallible; moves_steps ltac:(Sound_leaf b).
Qed.

Lemma run_Sound (b : bool) (env : Env) (turns : list (Plugins * Fallible.Turn)) :
  Forall (fun pt => b = true -> renders_return (fst pt)) turns ->
  forall s, Sound b s -> Sound b (Fallible.run env turns s).
Proof.
  induction 1 as [|pt turns Hpt _ IH]; intros s Hs; [exact Hs|].
  cbn. apply IH, (turn_Sound b env pt Hpt), Hs.
Qed.

(** Every state reached through turns whose calls may fail. *)
Lemma reachable_Sound (env : Env) (turns : list (Plugins * Fallible.Turn)) :
  Sound false (Fallible.run env turns boot).
Proof.
  apply run_Sound; [|apply boot_Sound].
  apply Forall_forall. intros pt _ Hb. discriminate Hb.
Qed.


(** ** Ticks of the render loop when a visual may throw *)



(** ** Playing, pausing and stopping when a song may fail *)

Lemma song_call_run (p : Plugins) (mk : nat -> Effect) (slot : option Song)
  (s : Sys) :
  match slot with
  | Some song => call p (mk (song_id song))
  | None => ret tt
  end s = (log (song_call mk slot) s, ended (song_ends p mk slot)).
Proof.
  destruct slot as [song|]; cbn.
  - apply call_run.
  - unfold ret. now rewrite log_nil.
Qed.




Lemma halted_clears (s : Sys) :
  Loop s ->
  animationId (ctl (halted s)) = None /\ frames (host (halted s)) = [].
Proof.
  intros [H1 H2 H3]. unfold halted.
  destruct (animationId (ctl s)) as [h|] eqn:Hid.
  - pose proof (H2 h eq_refl) as Hpos. cbn [truthy].
    destruct (Z.eqb_spec h 0); [lia|]. cbn. split; [reflexivity|].
    destruct H3 as [-> | (h' & -> & Hh')]; [reflexivity|].
    injection Hh' as <-. cbn. now rewrite Z.eqb_refl.
  - split; [exact Hid|].
    destruct H3 as [Hnone | (h & _ & Hh)]; congruence.
Qed.

(** X15: [pause] and [stop] in every state the controller can reach, also
    through calls that failed.  Each calls the song of the active deck, if
    there is one, and no other song.  If that call returns, or the deck is
    empty, [pause] publishes its event and changes nothing else, so that the
    render loop keeps running, and [stop] halts the render loop and then
    publishes its event, leaving the audio chain, the pending crossfade
    completions, the deck slots and [activeDeck] alone.  If the song's
    method throws, the error leaves the controller's method at once: no
    event is published, and [stop] has not halted the render loop. *)
Theorem pause_and_stop_reach_active_song_only
  (env : Env) (turns : list (Plugins * Fallible.Turn)) (p : Plugins) :
  let s := Fallible.run env turns boot in
  let slot := deck_slot (activeDeck (ctl s)) (ctl s) in
  (song_ends p SongPause slot = None ->
   Fallible.pause p s =
     (log (song_call SongPause slot ++ [BusEmit (paused (activeDeck (ctl s)))])
          s, Ok tt)) /\
  (forall err, song_ends p SongPause slot = Some err ->
   Fallible.pause p s = (log (song_call SongPause slot) s, Throw err)) /\
  (song_ends p SongStop slot = None ->
   let q := exec (Fallible.stop p) s in
   outcome (Fallible.stop p) s = Ok tt /\
   trace (host q) =
     trace (host s) ++ song_call SongStop slot ++
     [BusEmit (stopped (activeDeck (ctl s)))] /\
   animationId (ctl q) = None /\ frames (host q) = [] /\
   audioChain (ctl q) = audioChain (ctl s) /\
   timers (host q) = timers (host s) /\
   deckA (ctl q) = deckA (ctl s) /\ deckB (ctl q) = deckB (ctl s) /\
   activeDeck (ctl q) = activeDeck (ctl s)) /\
  (forall err, song_ends p SongStop slot = Some err ->
   Fallible.stop p s = (log (song_call SongStop slot) s, Throw err)).
Proof.
  intros s slot.
  destruct (reachable_Sound env turns) as (_ & Hloop & _). fold s in Hloop.
  assert (Hpause : Fallible.pause p s =
            match song_ends p SongPause slot with
            | Some err => (log (song_call SongPause slot) s, Throw err)
            | None =>
              (log (song_call SongPause slot ++
                    [BusEmit (paused (activeDeck (ctl s)))]) s, Ok tt)
            end).
  { unfold Fallible.pause, bind, this, gets. cbn. fold slot.
    rewrite song_call_run.
    destruct (song_ends p SongPause slot); cbn [ended]; [reflexivity|].
    unfold bus_emit. rewrite effect_run, log_log. reflexivity. }
  assert (Hstop : Fallible.stop p s =
            match song_ends p SongStop slot with
            | Some err => (log (song_call SongStop slot) s, Throw err)
            | None =>
              (log (song_call SongStop slot ++
                    [BusEmit (stopped (activeDeck (ctl s)))]) (halted s), Ok tt)
            end).
  { unfold Fallible.stop, bind, this, gets. cbn -[Controller.stopRenderLoop].
    fold slot. rewrite song_call_run.
    destruct (song_ends p SongStop slot); cbn [ended]; [reflexivity|].
    rewrite stopRenderLoop_run. unfold bus_emit.
    rewrite effect_run, halted_log, log_log. reflexivity. }
  split; [|split; [|split]].
  - intros Hret. now rewrite Hpause, Hret.
  - intros err Herr. now rewrite Hpause, Herr.
  - intros Hret. cbv zeta. unfold exec, outcome. rewrite Hstop, Hret.
    destruct (halted_clears s Hloop) as (Hid & Hfr).
    destruct (halted_ctl s) as (Hc & HA & HB & Hact & Hvs & Htr & Hts).
    cbn. rewrite Htr. repeat split; assumption.
  - intros err Herr. now rewrite Hstop, Herr.
Qed.

(** ** Shutting down when a plug-in may fail *)

Lemma teardown_run (p : Plugins) (v : Visual) (s : Sys) :
  (match _canvas v with
   | Some c => effect (CanvasRemove (canvas_id c))
   | None => ret tt
   end ;;
   when_ (visual_dispose v) (call p (VisualDispose (visual_id v)))) s =
  (log (teardown v) s,
   if visual_dispose v then ended (p (VisualDispose (visual_id v)))
   else Ok tt).
Proof.
  destruct s as [c0 [tr0 now0 ts0 fc0 fr0 nx0]].
  unfold teardown, call, when_. unfold_js. cbn.
  destruct (_canvas v) as [c|], (visual_dispose v); cbn;
    try destruct (p (VisualDispose (visual_id v))); cbn;
    rewrite <- ?app_assoc, ?app_nil_r; reflexivity.
Qed.

Lemma forEach_teardown_returns (p : Plugins) (vs : list Visual) :
  Forall (fun v => visual_dispose v = true ->
                   p (VisualDispose (visual_id v)) = None) vs ->
  forall s,
    forEach vs (fun v =>
      match _canvas v with
      | Some c => effect (CanvasRemove (canvas_id c))
      | None => ret tt
      end ;;
      when_ (visual_dispose v) (call p (VisualDispose (visual_id v)))) s =
    (log (flat_map teardown vs) s, Ok tt).
Proof.
  induction 1 as [|v vs Hv _ IH]; intros s; cbn [forEach flat_map].
  - unfold ret. now rewrite log_nil.
  - unfold bind at 1. rewrite teardown_run.
    destruct (visual_dispose v); [rewrite Hv by reflexivity|];
      cbn [ended]; rewrite IH, log_log; reflexivity.
Qed.

Lemma forEach_teardown_throws (p : Plugins) (before after : list Visual)
  (v : Visual) (err : Error) :
  Forall (fun v => visual_dispose v = true ->
                   p (VisualDispose (visual_id v)) = None) before ->
  visual_dispose v = true ->
  p (VisualDispose (visual_id v)) = Some err ->
  forall s,
    forEach (before ++ v :: after) (fun v =>
      match _canvas v with
      | Some c => effect (CanvasRemove (canvas_id c))
      | None => ret tt
      end ;;
      when_ (visual_dispose v) (call p (VisualDispose (visual_id v)))) s =
    (log (flat_map teardown before ++ teardown v) s, Throw err).
Proof.
  intros Hbefore Hhook Herr.
  induction Hbefore as [|b before Hb _ IH]; intros s;
    cbn [forEach flat_map app].
  - unfold bind at 1. rewrite teardown_run, Hhook, Herr. reflexivity.
  - unfold bind at 1. rewrite teardown_run.
    destruct (visual_dispose b); [rewrite Hb by reflexivity|];
      cbn [ended]; rewrite IH, log_log, app_assoc; reflexivity.
Qed.

(** X10: [dispose] in any state, when the plug-ins it calls may fail.  It
    halts the render loop, then releases the visuals in list order (canvas
    removed, [dispose] hook called if present), empties the list, calls
    [dispose()] on the song of deck A and of deck B, disposes of the audio
    chain and clears the bus.  If every call returns, it returns normally,
    also on a controller that was never initialised: the list of visuals is
    empty, the chain's flag is down and every node it holds is disposed of,
    so that [getAudioData] answers with the silent default; the deck slots
    and [activeDeck] are as before.  If a visual's hook throws, [dispose]
    ends there with that error: the visuals after it are not released, the
    list is not emptied, no song is disposed of, the audio chain is left as
    it was and the bus is not cleared.  If the [dispose()] of a song throws,
    what comes after it is skipped in the same way. *)
Theorem dispose_tears_everything_down (p : Plugins) (e : Engine) (s : Sys) :
  let s' := exec (Fallible.dispose p) s in
  let hooks_return vs :=
    Forall (fun v => visual_dispose v = true ->
                     p (VisualDispose (visual_id v)) = None) vs in
  let released := flat_map teardown (visuals (ctl s)) in
  (hooks_return (visuals (ctl s)) ->
   song_ends p SongDispose (deckA (ctl s)) = None ->
   song_ends p SongDispose (deckB (ctl s)) = None ->
   outcome (Fallible.dispose p) s = Ok tt /\
   trace (host s') =
     trace (host s) ++ released ++
     song_call SongDispose (deckA (ctl s)) ++
     song_call SongDispose (deckB (ctl s)) ++ [BusClear] /\
   visuals (ctl s') = [] /\
   audioChain (ctl s') = exec Chain.dispose (audioChain (ctl s)) /\
   ac_isInitialized (audioChain (ctl s')) = false /\
   nodes_disposed (audioChain (ctl s')) /\
   outcome (Chain.getAudioData e) (audioChain (ctl s')) = Ok silence /\
   deckA (ctl s') = deckA (ctl s) /\
   deckB (ctl s') = deckB (ctl s) /\
   activeDeck (ctl s') = activeDeck (ctl s)) /\
  (forall before v after err,
     visuals (ctl s) = before ++ v :: after ->
     hooks_return before ->
     visual_dispose v = true ->
     p (VisualDispose (visual_id v)) = Some err ->
     Fallible.dispose p s =
       (log (flat_map teardown before ++ teardown v) (halted s), Throw err) /\
     visuals (ctl s') = visuals (ctl s) /\
     audioChain (ctl s') = audioChain (ctl s)) /\
  (forall err,
     hooks_return (visuals (ctl s)) ->
     song_ends p SongDispose (deckA (ctl s)) = Some err ->
     Fallible.dispose p s =
       (log (released ++ song_call SongDispose (deckA (ctl s)))
            (on_ctl (with_visuals []) (halted s)), Throw err) /\
     audioChain (ctl s') = audioChain (ctl s)) /\
  (forall err,
     hooks_return (visuals (ctl s)) ->
     song_ends p SongDispose (deckA (ctl s)) = None ->
     song_ends p SongDispose (deckB (ctl s)) = Some err ->
     Fallible.dispose p s =
       (log (released ++ song_call SongDispose (deckA (ctl s)) ++
             song_call SongDispose (deckB (ctl s)))
            (on_ctl (with_visuals []) (halted s)), Throw err) /\
     audioChain (ctl s') = audioChain (ctl s)).
Proof.
  intros s' hooks_return released. subst s' released.
  destruct (halted_ctl s) as (Hc & HA & HB & Hact & Hvs & Htr & Hts).
  assert (Hrest : forall released,
    (assign (with_visuals []) ;;
     a <- this deckA ;;
     match a with
     | Some song => call p (SongDispose (song_id song))
     | None => ret tt
     end ;;
     b <- this deckB ;;
     match b with
     | Some song => call p (SongDispose (song_id song))
     | None => ret tt
     end ;;
     chain Chain.dispose ;;
     effect BusClear) (log released (halted s)) =
    match song_ends p SongDispose (deckA (ctl s)) with
    | Some err =>
      (log (released ++ song_call SongDispose (deckA (ctl s)))
           (on_ctl (with_visuals []) (halted s)), Throw err)
    | None =>
      match song_ends p SongDispose (deckB (ctl s)) with
      | Some err =>
        (log (released ++ song_call SongDispose (deckA (ctl s)) ++
              song_call SongDispose (deckB (ctl s)))
             (on_ctl (with_visuals []) (halted s)), Throw err)
      | None =>
        (log (released ++ song_call SongDispose (deckA (ctl s)) ++
              song_call SongDispose (deckB (ctl s)) ++ [BusClear])
             (on_ctl (fun c => with_audioChain
                                 (exec Chain.dispose (audioChain c))
                                 (with_visuals [] c)) (halted s)), Ok tt)
      end
    end).
  { intros released.
    set (s1 := on_ctl (with_visuals []) (halted s)).
    assert (HA1 : deckA (ctl s1) = deckA (ctl s)) by exact HA.
    assert (HB1 : deckB (ctl s1) = deckB (ctl s)) by exact HB.
    unfold bind at 1. unfold assign at 1, modify at 1.
    change (on_ctl (with_visuals []) (log released (halted s)))
      with (log released s1).
    cbv beta iota. unfold bind at 1. unfold this at 1, gets at 1.
    cbv beta iota. unfold bind at 1.
    change (deckA (ctl (log released s1))) with (deckA (ctl s1)).
    rewrite HA1, song_call_run, log_log.
    destruct (song_ends p SongDispose (deckA (ctl s))); cbn [ended];
      [reflexivity|].
    unfold bind at 1. unfold this at 1, gets at 1.
    cbv beta iota. unfold bind at 1.
    change (deckB (ctl (log (released ++ song_call SongDispose (deckA (ctl s)))
                          s1)))
      with (deckB (ctl s1)).
    rewrite HB1, song_call_run, log_log, <- app_assoc.
    destruct (song_ends p SongDispose (deckB (ctl s))); cbn [ended];
      [reflexivity|].
    subst s1. unfold effect, bind, chain, zoom, Chain.dispose, modify, exec,
      log, on_ctl, on_host. cbn.
    rewrite <- ?app_assoc. reflexivity. }
  assert (Hwhole : Fallible.dispose p s =
    (let (s1, r) :=
       forEach (visuals (ctl s)) (fun v =>
         match _canvas v with
         | Some c => effect (CanvasRemove (canvas_id c))
         | None => ret tt
         end ;;
         when_ (visual_dispose v)
               (call p (VisualDispose (visual_id v)))) (halted s) in
     match r with
     | Ok _ =>
       (assign (with_visuals []) ;;
        a <- this deckA ;;
        match a with
        | Some song => call p (SongDispose (song_id song))
        | None => ret tt
        end ;;
        b <- this deckB ;;
        match b with
        | Some song => call p (SongDispose (song_id song))
        | None => ret tt
        end ;;
        chain Chain.dispose ;;
        effect BusClear) s1
     | Throw err => (s1, Throw err)
     end)).
  { unfold Fallible.dispose. unfold bind at 1. rewrite stopRenderLoop_run.
    unfold bind at 1. unfold this at 1, gets at 1. cbn [fst snd].
    rewrite Hvs. unfold bind at 1. reflexivity. }
  split; [|split; [|split]].
  - intros Hhooks HsA HsB. unfold exec, outcome. rewrite Hwhole.
    rewrite (forEach_teardown_returns p _ Hhooks).
    rewrite Hrest, HsA, HsB. cbn [fst snd].
    split; [reflexivity|].
    split; [cbn; rewrite Htr; reflexivity|].
    split; [reflexivity|].
    split; [cbn; rewrite Hc; reflexivity|].
    split; [reflexivity|].
    split.
    { cbn. rewrite Hc.
      unfold nodes_disposed, exec, Chain.dispose, modify. cbn.
      destruct (crossfade (audioChain (ctl s))),
        (analyser (audioChain (ctl s))),
        (waveformAnalyser (audioChain (ctl s))),
        (meter (audioChain (ctl s))), (master (audioChain (ctl s)));
        cbn; repeat split; discriminate. }
    split.
    { cbn -[Chain.getAudioData]. unfold outcome.
      now rewrite getAudioData_uninitialized. }
    cbn. rewrite HA, HB, Hact. repeat split.
  - intros before v after err Hsplit Hbefore Hhook Herr.
    unfold exec. rewrite Hwhole, Hsplit.
    rewrite (forEach_teardown_throws p before after v err Hbefore Hhook Herr).
    cbn. rewrite Hvs, Hc, Hsplit. repeat split.
  - intros err Hhooks HsA. unfold exec. rewrite Hwhole.
    rewrite (forEach_teardown_returns p _ Hhooks).
    rewrite Hrest, HsA. cbn. rewrite Hc. split; reflexivity.
  - intros err Hhooks HsA HsB. unfold exec. rewrite Hwhole.
    rewrite (forEach_teardown_returns p _ Hhooks).
    rewrite Hrest, HsA, HsB. cbn. rewrite Hc. split; reflexivity.
Qed.

(** ** A crossfade whose incoming song takes its time *)




(** ** When every call returns *)

Lemma bind_ext {S X Y} (m m' : M S X) (k k' : X -> M S Y) (s : S) :
  m s = m' s -> (forall x s1, k x s1 = k' x s1) -> bind m k s = bind m' k' s.
Proof.
  intros Hm Hk. unfold bind. rewrite Hm.
  destruct (m' s) as [s1 [x|e]]; [apply Hk | reflexivity].
Qed.

Lemma try_catch_ext {S X} (m m' : M S X) (h h' : Error -> M S X) (s : S) :
  m s = m' s -> (forall e s1, h e s1 = h' e s1) ->
  try_catch m h s = try_catch m' h' s.
Proof.
  intros Hm Hh. unfold try_catch. rewrite Hm.
  destruct (m' s) as [s1 [x|e]]; [reflexivity | apply Hh].
Qed.

Lemma forEach_ext {S X} (f f' : X -> M S unit) (xs : list X) :
  (forall x s, f x s = f' x s) -> forall s, forEach xs f s = forEach xs f' s.
Proof.
  intros Hf. induction xs as [|x xs IH]; intros s; [reflexivity|].
  cbn. apply bind_ext; [apply Hf | intros _ s1; apply IH].
Qed.

Lemma call_quiet (e : Effect) (s : Sys) : call quiet e s = effect e s.
Proof. reflexivity. Qed.

Lemma completion_quiet (d : Deck) (s : Sys) :
  try_catch (Fallible.completion quiet d) (fun err => effect (Uncaught err)) s =
  Controller.completion d s.
Proof.
  open_sys s. unfold Fallible.completion, Controller.completion, call.
  unfold_js. cbn. destruct s_act, s_dA, s_dB; reflexivity.
Qed.

(** Splits an equation between two computations that differ only in how
    their calls are written. *)
Ltac quiet_steps :=
  repeat first
    [ reflexivity
    | apply completion_quiet
    | apply call_quiet
    | apply bind_ext; [|intros ? ?]
    | apply try_catch_ext; [|intros ? ?]
    | apply forEach_ext; intros ? ?
    | match goal with
      | |- (match ?x with _ => _ end) _ = _ => destruct x
      | |- (if ?x then _ else _) _ = _ => destruct x
      | |- (let (_, _) := ?x in _) _ = _ => destruct x
      | |- when_ ?b _ _ = _ => destruct b; cbn [when_]
      end ].

(** With plug-ins whose calls all return, the methods are those of
    [Controller]. *)
Lemma quiet_step (env : Env) (o : Op) (s : Sys) :
  Fallible.step env quiet o s = step env o s.
Proof.
  destruct o; cbn [Fallible.step step]; unfold exec; f_equal;
    unfold Fallible.loadSong, Fallible.loadSong_prepare,
      Fallible.loadSong_install, Fallible.on_sectionChange,
      Fallible.removeVisual, Fallible.play, Fallible.play_engine,
      Fallible.play_song, Fallible.play_loop, Fallible.pause, Fallible.stop,
      Fallible.startCrossfade, Fallible.startCrossfade_begin,
      Fallible.dispose, Fallible.advance,
      Fallible.frame, Fallible.startRenderLoop, Fallible.render,
      Controller.loadSong, Controller.loadSong_prepare,
      Controller.loadSong_install, Controller.on_sectionChange,
      Controller.removeVisual, Controller.play, Controller.pause,
      Controller.stop, Controller.startCrossfade,
      Controller.startCrossfade_begin, Controller.dispose, advance,
      frame, Controller.startRenderLoop, Controller.render;
    quiet_steps.
Qed.

Lemma quiet_run (env : Env) (ops : list Op) :
  forall s, Fallible.run env (quietly ops) s = run env ops s.
Proof.
  induction ops as [|o ops IH]; intros s; [reflexivity|].
  cbn. rewrite quiet_step. apply IH.
Qed.

(** ** The properties of failing calls on the sample inputs *)





Lemma pause_and_stop_reach_active_song_only_witness :
  let s := Fallible.run sample_env (quietly both_loaded_ops) boot in
  song_ends stop_throws SongStop (deck_slot (activeDeck (ctl s)) (ctl s)) =
    Some (PluginError "stop failed") /\
  Fallible.stop stop_throws s =
    (log (song_call SongStop (deck_slot (activeDeck (ctl s)) (ctl s))) s,
     Throw (PluginError "stop failed")).
Proof.
  cbv zeta.
  assert (H : song_ends stop_throws SongStop
                (deck_slot
                   (activeDeck
                      (ctl (Fallible.run sample_env (quietly both_loaded_ops)
                              boot)))
                   (ctl (Fallible.run sample_env (quietly both_loaded_ops)
                           boot))) =
              Some (PluginError "stop failed"))
    by (vm_compute; reflexivity).
  destruct (pause_and_stop_reach_active_song_only
              sample_env (quietly both_loaded_ops) stop_throws)
    as (_ & _ & _ & Hstop).
  split; [exact H | exact (Hstop _ H)].
Defined.

Lemma dispose_tears_everything_down_witness :
  let s := run sample_env bars_loaded boot in
  visuals (ctl s) = [] ++ bars :: [] /\
  visual_dispose bars = true /\
  hook_throws (VisualDispose (visual_id bars)) =
    Some (PluginError "dispose failed") /\
  visuals (ctl (exec (Fallible.dispose hook_throws) s)) = visuals (ctl s) /\
  audioChain (ctl (exec (Fallible.dispose hook_throws) s)) = audioChain (ctl s).
Proof.
  cbv zeta.
  assert (H : visuals (ctl (run sample_env bars_loaded boot)) = [] ++ bars :: [])
    by (vm_compute; reflexivity).
  destruct (dispose_tears_everything_down hook_throws sample_engine
              (run sample_env bars_loaded boot))
    as (_ & Hhook & _).
  destruct (Hhook [] bars [] _ H (Forall_nil _) eq_refl eq_refl)
    as (_ & Hvs & Hc).
  split; [exact H|]. split; [reflexivity|]. split; [reflexivity|].
  split; [exact Hvs | exact Hc].
Defined.

Lemma routing_never_throws_after_init_witness :
  let c' := chain_run [CDispose] (exec Chain.init Chain.constructor) in
  gt0 (Num (-6)) = false /\
  in_unit_interval (Num 1) = true /\
  outcome (Chain.setMasterVolume (Num (-6))) c' = Ok tt /\
  Chain.position (exec (Chain.setCrossfade (Num 1) (Num 4)) c') = Some (Num 1).
Proof.
  cbv zeta.
  destruct (routing_never_throws_after_init
              [CDispose] Chain.constructor 0%nat A (Num 1) (Num 4) (Num (-6)))
    as (_ & _ & Hvol & _ & Hpos).
  split; [reflexivity|]. split; [reflexivity|].
  split; [exact (Hvol eq_refl) | exact (proj1 (Hpos eq_refl))].
Defined.
